(** * nimrud.utils.geometry: voxel filter and nested partitioning

    A shallow embedding of [src/nimrud/utils/geometry.py].

    Modelling conventions.
    - A two-dimensional numpy array of floats is a [cloud]: its column count
      [shape1] and its list of rows.  Coordinates are rationals: only
      comparisons, [+], [-], [*], [/], [floor] and [ceil (log2 _)] are used by
      the source, and they are taken exactly (no rounding, no nan, no inf).
    - Index arrays ([np.arange], [nonzero()[0]]) are lists of [nat].
    - A Python exception is a value of [exn]; a function that may raise
      returns a [result], with [inl] for the raised exception.
    - [np.int64] values are integers of [Z] wrapped into the signed 64-bit
      range by [int64]; this includes the masks that have been shifted by an
      [np.int64]. *)

From Stdlib Require Import Ascii String List ZArith QArith Qround Lia Lqa Bool
  Arith.
From Stdlib Require Import Sorted.
Import ListNotations.

(** ** Exceptions and results *)

Inductive exn : Type :=
| ValueError (msg : string)
| NameError (msg : string)
| IndexError (msg : string)
| TypeError (msg : string).

Definition result (A : Type) : Type := (exn + A)%type.

Definition ret {A : Type} (a : A) : result A := inr a.
Definition raise {A : Type} (e : exn) : result A := inl e.

Definition bind {A B : Type} (c : result A) (k : A -> result B) : result B :=
  match c with
  | inl e => inl e
  | inr a => k a
  end.

Notation "x <- c ;; k" := (bind c (fun x => k))
  (at level 61, c at next level, right associativity).

(** ** Arrays of points *)

Definition point : Type := list Q.

Record cloud : Type := mkCloud { shape1 : nat; rows : list point }.

Definition shape0 (a : cloud) : nat := length (rows a).

Definition Qltb (x y : Q) : bool := negb (Qle_bool y x).

Definition qmin (x y : Q) : Q := if Qle_bool x y then x else y.
Definition qmax (x y : Q) : Q := if Qle_bool x y then y else x.

(** [a[:, k]] *)
Definition column (a : cloud) (k : nat) : list Q :=
  map (fun r => nth k r 0%Q) (rows a).

Definition reduce (f : Q -> Q -> Q) (l : list Q) : Q :=
  match l with
  | [] => 0%Q
  | x :: xs => fold_left f xs x
  end.

Definition zero_size (what : string) : exn :=
  ValueError ("zero-size array to reduction operation " ++ what
              ++ " which has no identity")%string.

(** [a.min(0)] and [a.max(0)]: numpy refuses to reduce along an empty axis. *)
Definition min0 (a : cloud) : result point :=
  match rows a with
  | [] => raise (zero_size "minimum")
  | _ :: _ => ret (map (fun k => reduce qmin (column a k)) (seq 0 (shape1 a)))
  end.

Definition max0 (a : cloud) : result point :=
  match rows a with
  | [] => raise (zero_size "maximum")
  | _ :: _ => ret (map (fun k => reduce qmax (column a k)) (seq 0 (shape1 a)))
  end.

(** Broadcasting a scalar over a one-dimensional array. *)
Definition sub_scalar (v : point) (c : Q) : point := map (fun x => (x - c)%Q) v.
Definition add_scalar (v : point) (c : Q) : point := map (fun x => (x + c)%Q) v.

(** [mask.nonzero()[0]] *)
Definition nonzero (mask : list bool) : list nat :=
  filter (fun i => nth i mask false) (seq 0 (length mask)).

(** [np.logical_and.reduce(all_masks, axis=0)] over masks of length [n]. *)
Definition logical_and_reduce (n : nat) (all_masks : list (list bool)) : list bool :=
  map (fun i => forallb (fun m => nth i m false) all_masks) (seq 0 n).

(** ** nested_regions *)

Module Regions.

Definition out_of_bounds : exn :=
  IndexError "index is out of bounds for axis 1".

(** One turn of the loop of [region_indices]: the masks appended for
    [dimension]. *)
Definition threshold_masks (points : cloud) (lowest_point highest_point : point)
    (dimension : nat) (low_coordinate high_coordinate : Q) : list (list bool) :=
  let point_column := column points dimension in
  (if Qltb (nth dimension lowest_point 0%Q) low_coordinate
   then [map (fun x => Qle_bool low_coordinate x) point_column] else [])
  ++
  (if Qltb high_coordinate (nth dimension highest_point 0%Q)
   then [map (fun x => Qle_bool x high_coordinate) point_column] else []).

(** The loop over [enumerate(zip(low_side, high_side))]. *)
Fixpoint collect_masks (points : cloud) (lowest_point highest_point : point)
    (dimension : nat) (sides : list (Q * Q)) (all_masks : list (list bool))
    : result (list (list bool)) :=
  match sides with
  | [] => ret all_masks
  | (low_coordinate, high_coordinate) :: rest =>
      if (shape1 points <=? dimension)%nat then raise out_of_bounds
      else collect_masks points lowest_point highest_point (S dimension) rest
             (all_masks ++ threshold_masks points lowest_point highest_point
                             dimension low_coordinate high_coordinate)
  end.

Definition region_indices (points : cloud) (low_side high_side : point)
    : result (list nat) :=
  lowest_point <- min0 points ;;
  highest_point <- max0 points ;;
  all_masks <- collect_masks points lowest_point highest_point 0
                 (combine low_side high_side) [] ;;
  match all_masks with
  | _ :: _ => ret (nonzero (logical_and_reduce (shape0 points) all_masks))
  | [] => ret (seq 0 (shape0 points))
  end.

Definition nested_regions (query_set search_space : cloud) (buffer_radius : Q)
    (minimum_corner maximum_corner : point) : result (list nat * list nat) :=
  query_indices <- region_indices query_set minimum_corner maximum_corner ;;
  search_indices <- region_indices search_space
                      (sub_scalar minimum_corner buffer_radius)
                      (add_scalar maximum_corner buffer_radius) ;;
  ret (query_indices, search_indices).

(** The box membership test written out, for comparison with the code:
    [low_side[k] <= p[k] <= high_side[k]] on every axis [k]. *)
Definition within_box (low_side high_side p : point) : bool :=
  forallb (fun k => Qle_bool (nth k low_side 0%Q) (nth k p 0%Q)
                    && Qle_bool (nth k p 0%Q) (nth k high_side 0%Q))
          (seq 0 (length low_side)).

Definition box_indices (points : cloud) (low_side high_side : point) : list nat :=
  filter (fun i => within_box low_side high_side (nth i (rows points) []))
         (seq 0 (shape0 points)).

(** The conjunction of the comparisons of one point against the pairs of
    [sides], starting at axis [dimension]. *)
Fixpoint sides_hold (dimension : nat) (sides : list (Q * Q)) (p : point) : bool :=
  match sides with
  | [] => true
  | (lo, hi) :: rest =>
      Qle_bool lo (nth dimension p 0%Q) && Qle_bool (nth dimension p 0%Q) hi
      && sides_hold (S dimension) rest p
  end.

End Regions.

(** ** NestedOctree *)

Definition zip_with {A B C : Type} (f : A -> B -> C) (xs : list A) (ys : list B)
    : list C :=
  map (fun p => f (fst p) (snd p)) (combine xs ys).

(** [a.take(index, axis=0)] for indices in range. *)
Definition take (a : cloud) (index : list nat) : cloud :=
  mkCloud (shape1 a) (map (fun i => nth i (rows a) []) index).

Module Octree.

(** What [self.cubes] can hold: the index pair appended by [partition], or
    an object that has a [partition_generator] of its own. *)
Inductive NestedOctree : Type :=
  mkNestedOctree (query_set search_space : cloud) (buffer_radius : Q)
                 (maximum_corner minimum_corner : point) (cubes : list cube)
with cube : Type :=
| Indices (local_indices : list nat * list nat)
| Child (tree : NestedOctree).

Definition query_set (self : NestedOctree) : cloud :=
  let (q, _, _, _, _, _) := self in q.
Definition search_space (self : NestedOctree) : cloud :=
  let (_, s, _, _, _, _) := self in s.
Definition buffer_radius (self : NestedOctree) : Q :=
  let (_, _, b, _, _, _) := self in b.
Definition maximum_corner (self : NestedOctree) : point :=
  let (_, _, _, hi, _, _) := self in hi.
Definition minimum_corner (self : NestedOctree) : point :=
  let (_, _, _, _, lo, _) := self in lo.
Definition cubes (self : NestedOctree) : list cube :=
  let (_, _, _, _, _, cs) := self in cs.

Definition set_cubes (self : NestedOctree) (cs : list cube) : NestedOctree :=
  mkNestedOctree (query_set self) (search_space self) (buffer_radius self)
                 (maximum_corner self) (minimum_corner self) cs.

Definition validate_input (points : cloud) : result unit :=
  if negb (shape1 points =? 3)%nat
  then raise (ValueError "only 3D spaces are supported")
  else if (shape0 points <? 2)%nat
  then raise (ValueError "need at least 2 points to partition")
  else ret tt.

(** [NestedOctree.__init__] *)
Definition init (query_set search_space : cloud) (buffer_radius : Q)
    : result NestedOctree :=
  _ <- validate_input query_set ;;
  _ <- validate_input search_space ;;
  if Qle_bool buffer_radius 0
  then raise (ValueError "buffer radius cannot be negative")
  else
    maximum_corner <- max0 query_set ;;
    minimum_corner <- min0 query_set ;;
    ret (mkNestedOctree query_set search_space buffer_radius
                        maximum_corner minimum_corner []).

(** [max(self.maximum_corner - self.minimum_corner) * 0.5] *)
Definition cube_edge (self : NestedOctree) : Q :=
  (reduce qmax (zip_with Qminus (maximum_corner self) (minimum_corner self))
   * (1 # 2))%Q.

(** [NestedOctree.partition]: the populated branch computes [cube_edge] and
    then does nothing with it. *)
Definition partition (self : NestedOctree) (max_population : Z)
    (minimum_factor : Q) : result NestedOctree :=
  local_indices <- Regions.nested_regions (query_set self) (search_space self)
                     (buffer_radius self) (minimum_corner self)
                     (maximum_corner self) ;;
  if (Z.of_nat (length (snd local_indices)) <=? max_population)%Z
  then ret (set_cubes self (cubes self ++ [Indices local_indices]))
  else
    let cube_edge := cube_edge self in
    ret self.

(** [itertools.product([0, 1], repeat=3)] *)
Definition cube_centers : list point :=
  flat_map (fun x => flat_map (fun y => map (fun z => [x; y; z]) [0%Q; 1%Q])
                              [0%Q; 1%Q])
           [0%Q; 1%Q].

Definition known_min_corners (self : NestedOctree) (cube_edge : Q) : list point :=
  map (fun c => zip_with Qplus (map (fun x => (x * cube_edge)%Q) c)
                         (minimum_corner self))
      cube_centers.

Definition known_max_corners (self : NestedOctree) (cube_edge : Q) : list point :=
  map (fun c => add_scalar c cube_edge) (known_min_corners self cube_edge).

(** Running a generator to exhaustion: the yielded values, or the exception
    that interrupted it. *)
Fixpoint exhaust {A B : Type} (step : A -> result B) (xs : list A)
    : result (list B) :=
  match xs with
  | [] => ret []
  | x :: rest => y <- step x ;; ys <- exhaust step rest ;; ret (y :: ys)
  end.

(** [NestedOctree._naive_cube_generator] *)
Definition naive_cube_generator (self : NestedOctree) (cube_edge : Q)
    : result (list (cloud * cloud)) :=
  exhaust
    (fun corners : point * point =>
       idx <- Regions.nested_regions (query_set self) (search_space self)
                (buffer_radius self) (fst corners) (snd corners) ;;
       ret (take (query_set self) (fst idx), take (search_space self) (snd idx)))
    (combine (known_min_corners self cube_edge)
             (known_max_corners self cube_edge)).

(** [NestedOctree.partition_generator]: an index pair has no
    [partition_generator] attribute and is yielded as it is. *)
Fixpoint partition_generator (self : NestedOctree) : list (list nat * list nat) :=
  match self with
  | mkNestedOctree _ _ _ _ _ cs =>
      (fix over (cs : list cube) : list (list nat * list nat) :=
         match cs with
         | [] => []
         | Indices this_cube :: rest => this_cube :: over rest
         | Child tree :: rest => partition_generator tree ++ over rest
         end) cs
  end.

End Octree.

(** ** VoxelFilter *)

(** A value stored in an [np.int64]: reduced into [-2^63, 2^63). *)
Definition int64 (z : Z) : Z := ((z + 2 ^ 63) mod 2 ^ 64 - 2 ^ 63)%Z.

(** [np.cumsum] *)
Fixpoint cumsum_from (acc : Z) (l : list Z) : list Z :=
  match l with
  | [] => []
  | x :: rest => (acc + x)%Z :: cumsum_from (acc + x)%Z rest
  end.

Definition cumsum (l : list Z) : list Z := cumsum_from 0%Z l.

(** [sum(l)] *)
Definition zsum (l : list Z) : Z := fold_left Z.add l 0%Z.

(** The loops [for num, this_shift in enumerate(self.shifts)] that update
    entry [num+1]: the first entry is left alone, and so is any entry past the
    last shift. *)
Fixpoint with_shifts (f : Z -> Z -> Z) (xs shifts : list Z) : list Z :=
  match xs, shifts with
  | x :: xs', s :: shifts' => f x s :: with_shifts f xs' shifts'
  | _, _ => xs
  end.

Definition on_tail (f : Z -> Z -> Z) (xs shifts : list Z) : list Z :=
  match xs with
  | [] => []
  | x0 :: rest => x0 :: with_shifts f rest shifts
  end.

(** ["1" * n]: empty when [n <= 0]. *)
Fixpoint string_repeat (c : ascii) (n : nat) : string :=
  match n with
  | O => EmptyString
  | S n' => String c (string_repeat c n')
  end.

Definition ones_string (n : Z) : string := string_repeat "1"%char (Z.to_nat n).

(** [int("0b" + digits, base=2)] *)
Fixpoint binary_digits (acc : Z) (digits : string) : option Z :=
  match digits with
  | EmptyString => Some acc
  | String "0"%char rest => binary_digits (2 * acc)%Z rest
  | String "1"%char rest => binary_digits (2 * acc + 1)%Z rest
  | String _ _ => None
  end.

Definition int_0b (digits : string) : result Z :=
  match digits with
  | EmptyString => raise (ValueError "invalid literal for int() with base 2")
  | _ => match binary_digits 0%Z digits with
         | Some v => ret v
         | None => raise (ValueError "invalid literal for int() with base 2")
         end
  end.

Fixpoint collect {A B : Type} (f : A -> result B) (xs : list A) : result (list B) :=
  match xs with
  | [] => ret []
  | x :: rest => y <- f x ;; ys <- collect f rest ;; ret (y :: ys)
  end.

(** [np.ceil(np.log2(x))], exact for [0 < x]; [np.log2] has no finite value
    elsewhere. *)
Definition ceil_log2 (x : Q) : Z :=
  if Qle_bool 1 x then Z.log2_up (Qceiling x)
  else (- Z.log2 (Qfloor (/ x)))%Z.

Module Voxel.

Definition MAX_ADDRESS_LENGTH : Z := 64.

Record VoxelFilter : Type := mkVoxelFilter {
  minimum_corner : point;
  maximum_corner : point;
  edge_length : Q;
  shifts : list Z;
  widths : list Z;
  masks : list Z
}.

Definition address_widths (minimum_corner maximum_corner : point)
    (edge_length : Q) : list Z :=
  let span := zip_with Qminus maximum_corner minimum_corner in
  map (fun s => ceil_log2 (s / edge_length)) span.

(** [VoxelFilter._calculate_shift].  The widths are [np.ceil] of the [log2]
    of a float, between -1074 and 1024: [astype(np.int64)] is exact on them
    and on their partial sums. *)
Definition calculate_shift (minimum_corner maximum_corner : point)
    (edge_length : Q) : result (list Z * list Z) :=
  let address_widths := address_widths minimum_corner maximum_corner edge_length in
  if (MAX_ADDRESS_LENGTH <? zsum address_widths)%Z
  then raise (ValueError "edge length is too small to address this space")
  else
    let shifts := removelast (cumsum address_widths) in
    ret (shifts, address_widths).

Definition shl64 (g s : Z) : Z := int64 (Z.shiftl g s).

(** [VoxelFilter._calculate_masks].  [masks[num+1] << this_shift] shifts a
    Python integer by an [np.int64]: the result is an [np.int64], and it
    wraps when the mask reaches bit 63. *)
Definition calculate_masks (shifts widths : list Z) : result (list Z) :=
  masks <- collect (fun this_width => int_0b (ones_string this_width)) widths ;;
  ret (on_tail shl64 masks shifts).

(** [VoxelFilter.__init__] *)
Definition init (points : cloud) (edge_length : Q) : result VoxelFilter :=
  if negb ((shape1 points =? 2)%nat || (shape1 points =? 3)%nat)
  then raise (ValueError "only 2D and 3D spaces supported")
  else if (shape0 points <? 2)%nat
  then raise (ValueError "need at least 2 points to define a voxel grid")
  else
    lowest <- min0 points ;;
    highest <- max0 points ;;
    let minimum_corner := sub_scalar lowest (edge_length / 2) in
    let maximum_corner := add_scalar highest (edge_length / 2) in
    sw <- calculate_shift minimum_corner maximum_corner edge_length ;;
    masks <- calculate_masks (fst sw) (snd sw) ;;
    ret (mkVoxelFilter minimum_corner maximum_corner edge_length
                       (fst sw) (snd sw) masks).

(** [np.any(a < b)] over two one-dimensional arrays. *)
Definition any_lt (a b : point) : bool :=
  existsb (fun p => Qltb (fst p) (snd p)) (combine a b).

(** [VoxelFilter._check_in_bounds], on an array that is already
    two-dimensional. *)
Definition check_in_bounds (self : VoxelFilter) (points : cloud) : result cloud :=
  if negb (shape1 points =? length (shifts self) + 1)%nat
  then raise (ValueError "wrong number of spatial dimensions")
  else
    lowest <- min0 points ;;
    if any_lt lowest (minimum_corner self)
    then raise (ValueError "some points fall outside filter bounding region")
    else
      highest <- max0 points ;;
      if any_lt (maximum_corner self) highest
      then raise (ValueError "some points fall outside filter bounding region")
      else ret points.

(** One row of [np.floor((points-self.minimum_corner)/self.edge_length)
    .astype(np.int64)]. *)
Definition voxel_coordinates (self : VoxelFilter) (p : point) : list Z :=
  zip_with (fun x m => int64 (Qfloor ((x - m) / edge_length self))) p
           (minimum_corner self).

Definition sum64 (l : list Z) : Z := fold_left (fun a b => int64 (a + b)) l 0%Z.

(** [VoxelFilter.coordinate_to_address] *)
Definition coordinate_to_address (self : VoxelFilter) (points : cloud)
    : result (list Z) :=
  points <- check_in_bounds self points ;;
  ret (map (fun p => sum64 (on_tail shl64 (voxel_coordinates self p)
                                    (shifts self)))
           (rows points)).

(** Whether every element fits an [np.int64]. *)
Definition int64_array (l : list Z) : bool :=
  forallb (fun a => (- 2 ^ 63 <=? a)%Z && (a <? 2 ^ 63)%Z) l.

(** Whether every element fits 64 bits, signed or unsigned. *)
Definition fits_64_bits (l : list Z) : bool :=
  forallb (fun a => (- 2 ^ 63 <=? a)%Z && (a <? 2 ^ 64)%Z) l.

(** The grid coordinates held by one address: [&] with the masks and the
    arithmetic [>>] of two's complement. *)
Definition address_fields (self : VoxelFilter) (address : Z) : list Z :=
  on_tail Z.shiftr (map (fun this_mask => Z.land address this_mask) (masks self))
          (shifts self).

(** [VoxelFilter.address_to_coordinate]: one column per mask.
    [np.atleast_1d] makes an [np.int64] array of integers that all fit that
    type.  When one of them needs the 64th bit the array is of [np.uint64]
    (of floats, next to a negative one), and [addresses & this_mask] with an
    [np.int64] mask raises.  An integer of more than 64 bits makes an array
    of Python objects, on which [&] and [>>] are those of Python's unbounded
    integers. *)
Definition address_to_coordinate (self : VoxelFilter) (addresses : list Z)
    : result cloud :=
  if negb (int64_array addresses) && fits_64_bits addresses
  then raise (TypeError "ufunc 'bitwise_and' not supported for the input types")
  else
    ret (mkCloud (length (masks self))
           (map (fun address =>
                   zip_with (fun g m => (inject_Z g * edge_length self + m
                                         + edge_length self * (1 # 2))%Q)
                            (address_fields self address) (minimum_corner self))
                addresses)).

(** The shift of each axis: axis 0 is never shifted, axis [col+1] is shifted
    by [shifts[col]]. *)
Definition axis_shifts (self : VoxelFilter) : list Z := 0%Z :: shifts self.

(** The bits of [address] that belong to axis [k], read as a number. *)
Definition cell_coordinate (self : VoxelFilter) (address : Z) (k : nat) : Z :=
  ((address / 2 ^ nth k (axis_shifts self) 0) mod 2 ^ nth k (widths self) 0)%Z.

(** What a constructed filter looks like, in two and in three dimensions. *)
Definition planar (self : VoxelFilter) (edge : Q) : Prop :=
  exists m0 m1 M0 M1 w0 w1,
    self = mkVoxelFilter [m0; m1] [M0; M1] edge [w0] [w0; w1]
                         [Z.ones w0; shl64 (Z.ones w1) w0]
    /\ (1 <= w0 /\ 1 <= w1 /\ w0 + w1 <= 64)%Z.

Definition spatial (self : VoxelFilter) (edge : Q) : Prop :=
  exists m0 m1 m2 M0 M1 M2 w0 w1 w2,
    self = mkVoxelFilter [m0; m1; m2] [M0; M1; M2] edge
                         [w0; (w0 + w1)%Z] [w0; w1; w2]
                         [Z.ones w0; shl64 (Z.ones w1) w0;
                          shl64 (Z.ones w2) (w0 + w1)]
    /\ (1 <= w0 /\ 1 <= w1 /\ 1 <= w2 /\ w0 + w1 + w2 <= 64)%Z.

(** [VoxelFilter.find_neighbors] and [VoxelFilter.find_facing_neighbors] *)
Definition find_neighbors (self : VoxelFilter) (address : Z) : result (list Z) :=
  raise (NameError "find_neighbors not implemented yet").

Definition find_facing_neighbors (self : VoxelFilter) (address : Z)
    : result (list Z) :=
  raise (NameError "find_facing_neighbors not implemented yet").

End Voxel.

(** Equality of coordinates and of points, up to the representation of a
    rational. *)
Definition same_point (p q : point) : Prop := Forall2 Qeq p q.

(** ** Octants and occupied cells *)

(** The corners of the octant of one centre. *)
Definition octant_corners (self : Octree.NestedOctree) (edge : Q) (center : point)
    : point * point :=
  let low := zip_with Qplus (map (fun x => (x * edge)%Q) center)
                      (Octree.minimum_corner self) in
  (low, add_scalar low edge).

(** [np.unique] on a one-dimensional array of integers: its elements in
    increasing order, each one once. *)
Fixpoint unique_insert (x : Z) (l : list Z) : list Z :=
  match l with
  | [] => [x]
  | y :: rest =>
      if (x <? y)%Z then x :: l
      else if (x =? y)%Z then l
      else y :: unique_insert x rest
  end.

Definition np_unique (l : list Z) : list Z := fold_right unique_insert [] l.

(** [VoxelFilter.unique_voxels] *)
Definition unique_voxels (self : Voxel.VoxelFilter) (points : cloud)
    : result cloud :=
  addresses <- Voxel.coordinate_to_address self points ;;
  let unique_addresses := np_unique addresses in
  Voxel.address_to_coordinate self unique_addresses.

(** The grid coordinates of a point before they are stored as [np.int64]. *)
Definition grid_coordinates (self : Voxel.VoxelFilter) (p : point) : list Z :=
  zip_with (fun x m => Qfloor ((x - m) / Voxel.edge_length self)) p
           (Voxel.minimum_corner self).

(** The grid coordinates packed at the shifts of their axes. *)
Definition packed (self : Voxel.VoxelFilter) (coordinates : list Z) : Z :=
  zsum (zip_with (fun g s => (g * 2 ^ s)%Z) coordinates
                 (Voxel.axis_shifts self)).

(** All the points of an array inside the bounding region of a filter. *)
Definition all_inside (self : Voxel.VoxelFilter) (pts : cloud) : Prop :=
  forall i k, (i < shape0 pts)%nat -> (k < shape1 pts)%nat ->
    (nth k (Voxel.minimum_corner self) 0 <= nth k (nth i (rows pts) []) 0
     /\ nth k (nth i (rows pts) []) 0 <= nth k (Voxel.maximum_corner self) 0)%Q.

(** ** Running examples *)

Definition cloud_of (d : nat) (rs : list point) : cloud := mkCloud d rs.

Definition grid_points : cloud := cloud_of 2 [[0; 0]; [3; 4]]%Q.

Definition grid_filter : Voxel.VoxelFilter :=
  Voxel.mkVoxelFilter [-1 # 2; -1 # 2]%Q [7 # 2; 9 # 2]%Q 1
                      [2]%Z [2; 3]%Z [3; 28]%Z.

(** A cloud whose extent is a quarter of the edge length. *)
Definition narrow_points : cloud := cloud_of 2 [[0; 0]; [1 # 4; 1 # 4]]%Q.

Definition narrow_filter : Voxel.VoxelFilter :=
  Voxel.mkVoxelFilter [-1 # 2; -1 # 2]%Q [6 # 8; 6 # 8]%Q 1
                      [1]%Z [1; 1]%Z [1; 2]%Z.

(** A cloud whose second axis spans a power of two of cells. *)
Definition square_points : cloud := cloud_of 2 [[0; 0]; [3; 7]]%Q.

Definition square_filter : Voxel.VoxelFilter :=
  Voxel.mkVoxelFilter [-1 # 2; -1 # 2]%Q [7 # 2; 15 # 2]%Q 1
                      [2]%Z [2; 3]%Z [3; 28]%Z.

(** A cloud of 2^32 cells along each axis: the widths add up to 64. *)
Definition full_points : cloud :=
  cloud_of 2 [[0; 0]; [4294967295; 4294967295]]%Q.

Definition full_filter : Voxel.VoxelFilter :=
  Voxel.mkVoxelFilter [-1 # 2; -1 # 2]%Q [8589934591 # 2; 8589934591 # 2]%Q 1
                      [32]%Z [32; 32]%Z [4294967295; -4294967296]%Z.

Definition wide_points : cloud :=
  cloud_of 2 [[0; 0]; [1000000000; 1000000000]]%Q.

Definition wide_points_3d : cloud :=
  cloud_of 3 [[0; 0; 0]; [1000000000; 1000000000; 1000000000]]%Q.

(** Two query points at opposite corners of a cube of edge 4, searched among
    themselves. *)
Definition two_corners : cloud :=
  cloud_of 3 [[0; 0; 0]; [4; 4; 4]]%Q.

Definition corner_node : Octree.NestedOctree :=
  Octree.mkNestedOctree two_corners two_corners 1 [4; 4; 4]%Q [0; 0; 0]%Q [].

Definition corner_node_half : Octree.NestedOctree :=
  Octree.mkNestedOctree two_corners two_corners (1 # 2) [4; 4; 4]%Q [0; 0; 0]%Q [].

(** * Properties *)

(** ** Rational comparisons and reductions *)

Lemma Qle_bool_false (x y : Q) : Qle_bool x y = false -> (y < x)%Q.
Proof.
  intros H. apply Qnot_le_lt. intros Hle.
  apply Qle_bool_iff in Hle. congruence.
Qed.

Lemma Qltb_false (x y : Q) : Qltb x y = false -> (y <= x)%Q.
Proof.
  unfold Qltb. intros H. apply negb_false_iff in H.
  now apply Qle_bool_iff.
Qed.

Lemma qmin_le_l (x y : Q) : (qmin x y <= x)%Q.
Proof.
  unfold qmin. destruct (Qle_bool x y) eqn:E.
  - apply Qle_refl.
  - apply Qlt_le_weak, Qle_bool_false, E.
Qed.

Lemma qmin_le_r (x y : Q) : (qmin x y <= y)%Q.
Proof.
  unfold qmin. destruct (Qle_bool x y) eqn:E.
  - now apply Qle_bool_iff.
  - apply Qle_refl.
Qed.

Lemma qmax_ge_l (x y : Q) : (x <= qmax x y)%Q.
Proof.
  unfold qmax. destruct (Qle_bool x y) eqn:E.
  - now apply Qle_bool_iff.
  - apply Qle_refl.
Qed.

Lemma qmax_ge_r (x y : Q) : (y <= qmax x y)%Q.
Proof.
  unfold qmax. destruct (Qle_bool x y) eqn:E.
  - apply Qle_refl.
  - apply Qlt_le_weak, Qle_bool_false, E.
Qed.

Lemma fold_qmin_le (xs : list Q) :
  forall x, (fold_left qmin xs x <= x)%Q
            /\ forall y, In y xs -> (fold_left qmin xs x <= y)%Q.
Proof.
  induction xs as [|a xs IH]; intros x; simpl.
  - split; [apply Qle_refl | contradiction].
  - destruct (IH (qmin x a)) as [H1 H2]. split.
    + eapply Qle_trans; [exact H1 | apply qmin_le_l].
    + intros y [<- | Hy].
      * eapply Qle_trans; [exact H1 | apply qmin_le_r].
      * now apply H2.
Qed.

Lemma fold_qmax_ge (xs : list Q) :
  forall x, (x <= fold_left qmax xs x)%Q
            /\ forall y, In y xs -> (y <= fold_left qmax xs x)%Q.
Proof.
  induction xs as [|a xs IH]; intros x; simpl.
  - split; [apply Qle_refl | contradiction].
  - destruct (IH (qmax x a)) as [H1 H2]. split.
    + eapply Qle_trans; [apply qmax_ge_l | exact H1].
    + intros y [<- | Hy].
      * eapply Qle_trans; [apply qmax_ge_r | exact H1].
      * now apply H2.
Qed.

Lemma reduce_qmin_le (l : list Q) (y : Q) : In y l -> (reduce qmin l <= y)%Q.
Proof.
  destruct l as [|x xs]; simpl; [contradiction|].
  destruct (fold_qmin_le xs x) as [H1 H2].
  intros [<- | Hy]; auto.
Qed.

Lemma reduce_qmax_ge (l : list Q) (y : Q) : In y l -> (y <= reduce qmax l)%Q.
Proof.
  destruct l as [|x xs]; simpl; [contradiction|].
  destruct (fold_qmax_ge xs x) as [H1 H2].
  intros [<- | Hy]; auto.
Qed.

Lemma filter_all {A : Type} (f : A -> bool) (l : list A) :
  (forall x, In x l -> f x = true) -> filter f l = l.
Proof.
  induction l as [|a l IH]; simpl; intros H; [reflexivity|].
  rewrite (H a) by now left. f_equal. apply IH. intros x Hx. apply H. now right.
Qed.

Lemma forallb_map_seq (f : nat -> bool) (g : nat -> nat) (l : list nat) :
  forallb f (map g l) = forallb (fun j => f (g j)) l.
Proof.
  induction l as [|a l IH]; simpl; [reflexivity|]. now rewrite IH.
Qed.

Lemma forallb_pointwise {A : Type} (f g : A -> bool) (l : list A) :
  (forall x, f x = g x) -> forallb f l = forallb g l.
Proof.
  intros H. induction l as [|a l IH]; simpl; [reflexivity|]. now rewrite H, IH.
Qed.

Lemma nth_map_in {A B : Type} (f : A -> B) (l : list A) (i : nat) (d : A) (e : B) :
  (i < length l)%nat -> nth i (map f l) e = f (nth i l d).
Proof.
  intros Hi. rewrite (nth_indep _ e (f d)) by now rewrite length_map.
  apply map_nth.
Qed.

(** ** The region filter *)

Module RegionsFacts.
Import Regions.

Lemma min0_nth (a : cloud) (lowest : point) (k : nat) :
  min0 a = inr lowest -> (k < shape1 a)%nat ->
  nth k lowest 0%Q = reduce qmin (column a k).
Proof.
  unfold min0. destruct (rows a); [discriminate|].
  intros [= <-] Hk.
  rewrite (nth_map_in _ _ _ 0%nat) by now rewrite length_seq.
  now rewrite seq_nth.
Qed.

Lemma max0_nth (a : cloud) (highest : point) (k : nat) :
  max0 a = inr highest -> (k < shape1 a)%nat ->
  nth k highest 0%Q = reduce qmax (column a k).
Proof.
  unfold max0. destruct (rows a); [discriminate|].
  intros [= <-] Hk.
  rewrite (nth_map_in _ _ _ 0%nat) by now rewrite length_seq.
  now rewrite seq_nth.
Qed.

Lemma column_nth (a : cloud) (k i : nat) :
  (i < shape0 a)%nat ->
  nth i (column a k) 0%Q = nth k (nth i (rows a) []) 0%Q.
Proof.
  intros Hi. unfold column. now rewrite (nth_map_in _ _ _ []).
Qed.

Lemma column_in (a : cloud) (k i : nat) :
  (i < shape0 a)%nat -> In (nth k (nth i (rows a) []) 0%Q) (column a k).
Proof.
  intros Hi. rewrite <- column_nth by assumption.
  apply nth_In. unfold column. now rewrite length_map.
Qed.

Section OneArray.
Variable points : cloud.
Variables lowest_point highest_point : point.
Hypothesis Hlow : min0 points = inr lowest_point.
Hypothesis Hhigh : max0 points = inr highest_point.

(** A comparison left out of [all_masks] is one that every point passes. *)
Lemma threshold_masks_at (dimension i : nat) (lo hi : Q) :
  (dimension < shape1 points)%nat -> (i < shape0 points)%nat ->
  forallb (fun m => nth i m false)
          (threshold_masks points lowest_point highest_point dimension lo hi)
  = Qle_bool lo (nth dimension (nth i (rows points) []) 0%Q)
    && Qle_bool (nth dimension (nth i (rows points) []) 0%Q) hi.
Proof.
  intros Hd Hi. unfold threshold_masks.
  pose proof (column_in points dimension i Hi) as Hin.
  set (x := nth dimension (nth i (rows points) []) 0%Q) in *.
  rewrite forallb_app. f_equal.
  - destruct (Qltb (nth dimension lowest_point 0%Q) lo) eqn:E; simpl.
    + rewrite (nth_map_in _ _ _ 0%Q)
        by (unfold column; now rewrite length_map).
      rewrite column_nth by assumption. now rewrite andb_true_r.
    + symmetry. apply Qle_bool_iff.
      apply Qltb_false in E. eapply Qle_trans; [exact E|].
      rewrite (min0_nth points lowest_point dimension Hlow Hd).
      now apply reduce_qmin_le.
  - destruct (Qltb hi (nth dimension highest_point 0%Q)) eqn:E; simpl.
    + rewrite (nth_map_in _ _ _ 0%Q)
        by (unfold column; now rewrite length_map).
      rewrite column_nth by assumption. now rewrite andb_true_r.
    + symmetry. apply Qle_bool_iff.
      apply Qltb_false in E. eapply Qle_trans; [|exact E].
      rewrite (max0_nth points highest_point dimension Hhigh Hd).
      now apply reduce_qmax_ge.
Qed.

Lemma collect_masks_at (sides : list (Q * Q)) :
  forall dimension all_masks,
    (dimension + length sides <= shape1 points)%nat ->
    exists masks,
      collect_masks points lowest_point highest_point dimension sides all_masks
      = inr masks
      /\ forall i, (i < shape0 points)%nat ->
           forallb (fun m => nth i m false) masks
           = forallb (fun m => nth i m false) all_masks
             && sides_hold dimension sides (nth i (rows points) []).
Proof.
  induction sides as [|[lo hi] rest IH]; intros dimension all_masks Hlen;
    simpl in *.
  - exists all_masks. split; [reflexivity|].
    intros i _. now rewrite andb_true_r.
  - destruct (Nat.leb_spec (shape1 points) dimension) as [Hge|Hlt]; [lia|].
    destruct (IH (S dimension)
                (all_masks ++ threshold_masks points lowest_point highest_point
                                dimension lo hi)) as [masks [Hm Hat]]; [lia|].
    exists masks. split; [exact Hm|].
    intros i Hi. rewrite (Hat i Hi), forallb_app.
    rewrite threshold_masks_at by (assumption || lia).
    now rewrite !andb_assoc.
Qed.
End OneArray.

Lemma sides_hold_combine (low_side : point) :
  forall high_side dimension p,
    length low_side = length high_side ->
    sides_hold dimension (combine low_side high_side) p
    = forallb (fun j => Qle_bool (nth j low_side 0%Q) (nth (dimension + j) p 0%Q)
                        && Qle_bool (nth (dimension + j) p 0%Q)
                                    (nth j high_side 0%Q))
              (seq 0 (length low_side)).
Proof.
  induction low_side as [|lo ls IH]; intros [|hi hs] dimension p Hlen;
    simpl in *; try discriminate; [reflexivity|].
  rewrite Nat.add_0_r. f_equal.
  rewrite IH by lia. rewrite <- seq_shift, forallb_map_seq.
  apply forallb_pointwise. intros j.
  now rewrite Nat.add_succ_r.
Qed.

(** [region_indices] keeps exactly the indices of the points in the box, in
    increasing order. *)
Lemma region_indices_box (points : cloud) (low_side high_side : point) :
  rows points <> [] ->
  length low_side = shape1 points ->
  length high_side = shape1 points ->
  region_indices points low_side high_side
  = inr (box_indices points low_side high_side).
Proof.
  intros Hne Hl Hh. unfold region_indices.
  destruct (min0 points) as [e|lowest] eqn:Hlow.
  { unfold min0 in Hlow. destruct (rows points); [contradiction|discriminate]. }
  destruct (max0 points) as [e|highest] eqn:Hhigh.
  { unfold max0 in Hhigh. destruct (rows points); [contradiction|discriminate]. }
  simpl.
  destruct (collect_masks_at points lowest highest Hlow Hhigh
              (combine low_side high_side) 0%nat [])
    as [masks [Hm Hat]].
  { rewrite length_combine. simpl. lia. }
  rewrite Hm. simpl.
  assert (Hbox : forall i, (i < shape0 points)%nat ->
            forallb (fun m => nth i m false) masks
            = within_box low_side high_side (nth i (rows points) [])).
  { intros i Hi. rewrite (Hat i Hi). simpl.
    rewrite sides_hold_combine by congruence. reflexivity. }
  unfold box_indices, ret. destruct masks as [|m ms].
  - f_equal. symmetry. apply filter_all.
    intros i Hi. apply in_seq in Hi. rewrite <- Hbox by lia. reflexivity.
  - f_equal. unfold nonzero, logical_and_reduce.
    rewrite length_map, length_seq.
    apply filter_ext_in. intros i Hi. apply in_seq in Hi.
    rewrite (nth_map_in _ _ _ 0%nat) by (rewrite length_seq; lia).
    rewrite seq_nth by lia. simpl Nat.add. apply Hbox. lia.
Qed.

End RegionsFacts.

Module RegionFilter.
Import Regions RegionsFacts.

Lemma within_box_iff (low_side high_side p : point) :
  within_box low_side high_side p = true
  <-> forall k, (k < length low_side)%nat ->
        (nth k low_side 0 <= nth k p 0 /\ nth k p 0 <= nth k high_side 0)%Q.
Proof.
  unfold within_box. rewrite forallb_forall. split.
  - intros H k Hk. specialize (H k). rewrite in_seq in H.
    specialize (H ltac:(lia)). apply andb_true_iff in H.
    now rewrite <- !Qle_bool_iff.
  - intros H k Hk. apply in_seq in Hk. apply andb_true_iff.
    rewrite !Qle_bool_iff. apply H. lia.
Qed.

Lemma box_indices_iff (points : cloud) (low_side high_side : point) (i : nat) :
  In i (box_indices points low_side high_side)
  <-> (i < shape0 points)%nat
      /\ forall k, (k < length low_side)%nat ->
           (nth k low_side 0 <= nth k (nth i (rows points) []) 0
            /\ nth k (nth i (rows points) []) 0 <= nth k high_side 0)%Q.
Proof.
  unfold box_indices. rewrite filter_In, in_seq, within_box_iff.
  intuition lia.
Qed.

Lemma sub_scalar_nth (v : point) (c : Q) (k : nat) :
  (k < length v)%nat -> nth k (sub_scalar v c) 0%Q = (nth k v 0 - c)%Q.
Proof. intros Hk. unfold sub_scalar. now rewrite (nth_map_in _ _ _ 0%Q). Qed.

Lemma add_scalar_nth (v : point) (c : Q) (k : nat) :
  (k < length v)%nat -> nth k (add_scalar v c) 0%Q = (nth k v 0 + c)%Q.
Proof. intros Hk. unfold add_scalar. now rewrite (nth_map_in _ _ _ 0%Q). Qed.

(** The indices of the buffered box, read coordinate by coordinate. *)
Lemma buffered_box_indices_iff (points : cloud) (low_side high_side : point)
    (buffer_radius : Q) (i : nat) :
  length high_side = length low_side ->
  In i (box_indices points (sub_scalar low_side buffer_radius)
                    (add_scalar high_side buffer_radius))
  <-> (i < shape0 points)%nat
      /\ forall k, (k < length low_side)%nat ->
           (nth k low_side 0 - buffer_radius <= nth k (nth i (rows points) []) 0
            /\ nth k (nth i (rows points) []) 0
               <= nth k high_side 0 + buffer_radius)%Q.
Proof.
  intros Hlen. rewrite box_indices_iff.
  unfold sub_scalar at 1. rewrite length_map.
  split; intros [Hi H]; (split; [exact Hi|]); intros k Hk;
    specialize (H k Hk);
    rewrite sub_scalar_nth, add_scalar_nth in * by lia; exact H.
Qed.

(** C5, as stated, fails on an array without points: [points.min(0)] cannot
    reduce an empty axis, so [nested_regions] raises where the box test
    selects no query index and search index 0. *)
Lemma nested_regions_empty_query_set :
  let query_set := cloud_of 2 [] in
  let search_space := cloud_of 2 [[0; 0]]%Q in
  let low := [0; 0]%Q in
  let high := [1; 1]%Q in
  nested_regions query_set search_space 1 low high
  = inl (zero_size "minimum")
  /\ box_indices query_set low high = []
  /\ box_indices search_space (sub_scalar low 1) (add_scalar high 1) = [0%nat]
  /\ nested_regions query_set search_space 1 low high
     <> inr (box_indices query_set low high,
             box_indices search_space (sub_scalar low 1) (add_scalar high 1)).
Proof.
  repeat split; try reflexivity. discriminate.
Qed.

(** C5 (amended): for non-empty arrays and a box of their dimensionality,
    [nested_regions] returns exactly the query indices inside the box and the
    search indices inside the box grown by [buffer_radius] on every side;
    the comparisons that [region_indices] leaves out change nothing. *)
Theorem nested_regions_exact (query_set search_space : cloud) (buffer_radius : Q)
    (minimum_corner maximum_corner : point) :
  (0 < shape0 query_set)%nat ->
  (0 < shape0 search_space)%nat ->
  shape1 search_space = shape1 query_set ->
  length minimum_corner = shape1 query_set ->
  length maximum_corner = shape1 query_set ->
  exists query_indices search_indices,
    nested_regions query_set search_space buffer_radius
                   minimum_corner maximum_corner
    = inr (query_indices, search_indices)
    /\ query_indices = box_indices query_set minimum_corner maximum_corner
    /\ search_indices = box_indices search_space
                          (sub_scalar minimum_corner buffer_radius)
                          (add_scalar maximum_corner buffer_radius)
    /\ (forall i, In i query_indices
          <-> (i < shape0 query_set)%nat
              /\ forall k, (k < shape1 query_set)%nat ->
                   (nth k minimum_corner 0
                      <= nth k (nth i (rows query_set) []) 0
                    /\ nth k (nth i (rows query_set) []) 0
                      <= nth k maximum_corner 0)%Q)
    /\ (forall i, In i search_indices
          <-> (i < shape0 search_space)%nat
              /\ forall k, (k < shape1 query_set)%nat ->
                   (nth k minimum_corner 0 - buffer_radius
                      <= nth k (nth i (rows search_space) []) 0
                    /\ nth k (nth i (rows search_space) []) 0
                      <= nth k maximum_corner 0 + buffer_radius)%Q).
Proof.
  intros Hq Hs Hd Hlo Hhi.
  exists (box_indices query_set minimum_corner maximum_corner),
         (box_indices search_space (sub_scalar minimum_corner buffer_radius)
                      (add_scalar maximum_corner buffer_radius)).
  split; [|split; [reflexivity|split; [reflexivity|split]]].
  - unfold nested_regions.
    rewrite region_indices_box; try assumption.
    + simpl. rewrite region_indices_box.
      * reflexivity.
      * unfold shape0 in Hs. destruct (rows search_space); simpl in *;
          [lia | discriminate].
      * unfold sub_scalar. rewrite length_map. congruence.
      * unfold add_scalar. rewrite length_map. congruence.
    + unfold shape0 in Hq. destruct (rows query_set); simpl in *;
        [lia | discriminate].
  - intros i. rewrite box_indices_iff, Hlo. reflexivity.
  - intros i. rewrite buffered_box_indices_iff by congruence.
    rewrite Hlo. reflexivity.
Qed.

Lemma nested_regions_exact_witness :
  nested_regions (cloud_of 2 [[0; 0]; [5; 5]; [10; 10]]%Q)
                 (cloud_of 2 [[0; 0]; [5; 5]; [10; 10]; [-3; -3]]%Q)
                 2 [0; 0]%Q [5; 5]%Q
  = inr ([0; 1]%nat, [0; 1]%nat).
Proof.
  destruct (nested_regions_exact
              (cloud_of 2 [[0; 0]; [5; 5]; [10; 10]]%Q)
              (cloud_of 2 [[0; 0]; [5; 5]; [10; 10]; [-3; -3]]%Q)
              2 [0; 0]%Q [5; 5]%Q)
    as [q [s [Heq [Hq [Hs _]]]]];
    [vm_compute; lia | vm_compute; lia | reflexivity | reflexivity
     | reflexivity |].
  rewrite Heq, Hq, Hs. reflexivity.
Defined.

End RegionFilter.

(** ** The octree partitioner *)

Module OctreeFacts.
Import Regions Octree.

Lemma cubes_set_cubes (self : NestedOctree) (cs : list cube) :
  cubes (set_cubes self cs) = cs.
Proof. reflexivity. Qed.

Lemma partition_generator_cubes (self : NestedOctree) :
  partition_generator self
  = flat_map (fun c => match c with
                       | Indices this_cube => [this_cube]
                       | Child tree => partition_generator tree
                       end) (cubes self).
Proof.
  destruct self as [q s b hi lo cs]. simpl.
  induction cs as [|[idx|tree] cs IH]; simpl; [reflexivity| |];
    now rewrite IH.
Qed.

Lemma init_fields (query_set0 search_space0 : cloud) (buffer_radius0 : Q)
    (self : NestedOctree) :
  init query_set0 search_space0 buffer_radius0 = inr self ->
  query_set self = query_set0 /\ search_space self = search_space0
  /\ buffer_radius self = buffer_radius0
  /\ max0 query_set0 = inr (maximum_corner self)
  /\ min0 query_set0 = inr (minimum_corner self)
  /\ cubes self = []
  /\ shape1 query_set0 = 3%nat /\ shape1 search_space0 = 3%nat
  /\ (2 <= shape0 query_set0)%nat /\ (2 <= shape0 search_space0)%nat.
Proof.
  unfold init, validate_input.
  destruct (Nat.eqb_spec (shape1 query_set0) 3) as [Hq3|]; simpl;
    [|discriminate].
  destruct (Nat.ltb_spec (shape0 query_set0) 2); simpl; [discriminate|].
  destruct (Nat.eqb_spec (shape1 search_space0) 3) as [Hs3|]; simpl;
    [|discriminate].
  destruct (Nat.ltb_spec (shape0 search_space0) 2); simpl; [discriminate|].
  destruct (Qle_bool buffer_radius0 0); [discriminate|].
  destruct (max0 query_set0) as [|hi]; simpl; [discriminate|].
  destruct (min0 query_set0) as [|lo]; simpl; [discriminate|].
  intros [= <-]. simpl. repeat split; auto.
Qed.

Lemma min0_length (a : cloud) (v : point) :
  min0 a = inr v -> length v = shape1 a.
Proof.
  unfold min0. destruct (rows a); [discriminate|].
  intros [= <-]. now rewrite length_map, length_seq.
Qed.

Lemma max0_length (a : cloud) (v : point) :
  max0 a = inr v -> length v = shape1 a.
Proof.
  unfold max0. destruct (rows a); [discriminate|].
  intros [= <-]. now rewrite length_map, length_seq.
Qed.

(** The region of a node is the bounding box of its query set, so the local
    query indices are all the indices. *)
Lemma bounding_box_indices (a : cloud) (lowest highest : point) :
  min0 a = inr lowest -> max0 a = inr highest ->
  box_indices a lowest highest = seq 0 (shape0 a).
Proof.
  intros Hlow Hhigh. unfold box_indices. apply filter_all.
  intros i Hi. apply in_seq in Hi.
  apply RegionFilter.within_box_iff. intros k Hk.
  rewrite (min0_length a lowest Hlow) in Hk.
  rewrite (RegionsFacts.min0_nth a lowest k Hlow Hk).
  rewrite (RegionsFacts.max0_nth a highest k Hhigh Hk).
  split.
  - apply reduce_qmin_le, RegionsFacts.column_in. lia.
  - apply reduce_qmax_ge, RegionsFacts.column_in. lia.
Qed.

(** On a constructed node the region filter of [partition] does not raise. *)
Lemma local_indices_of_init (query_set0 search_space0 : cloud)
    (buffer_radius0 : Q) (self : NestedOctree) :
  init query_set0 search_space0 buffer_radius0 = inr self ->
  nested_regions (query_set self) (search_space self) (buffer_radius self)
                 (minimum_corner self) (maximum_corner self)
  = inr (seq 0 (shape0 query_set0),
         box_indices search_space0
           (sub_scalar (minimum_corner self) buffer_radius0)
           (add_scalar (maximum_corner self) buffer_radius0)).
Proof.
  intros Hinit.
  destruct (init_fields _ _ _ _ Hinit)
    as (-> & -> & -> & Hmax & Hmin & _ & Hq3 & Hs3 & Hqn & Hsn).
  pose proof (min0_length _ _ Hmin) as Lmin.
  pose proof (max0_length _ _ Hmax) as Lmax.
  assert (Hq : rows query_set0 <> []).
  { unfold shape0 in Hqn. destruct (rows query_set0); simpl in *;
      [lia | discriminate]. }
  assert (Hs : rows search_space0 <> []).
  { unfold shape0 in Hsn. destruct (rows search_space0); simpl in *;
      [lia | discriminate]. }
  unfold nested_regions.
  rewrite RegionsFacts.region_indices_box by assumption. cbn [bind].
  rewrite RegionsFacts.region_indices_box;
    [| exact Hs
     | unfold sub_scalar; rewrite length_map; congruence
     | unfold add_scalar; rewrite length_map; congruence].
  now rewrite (bounding_box_indices _ _ _ Hmin Hmax).
Qed.

(** C3: when the local search population is at most [max_population], a
    fresh node becomes a leaf holding the local index pair, and
    [partition_generator] yields that pair and nothing else. *)
Theorem partition_leaf (self : NestedOctree) (max_population : Z)
    (minimum_factor : Q) (query_indices search_indices : list nat) :
  cubes self = [] ->
  nested_regions (query_set self) (search_space self) (buffer_radius self)
                 (minimum_corner self) (maximum_corner self)
  = inr (query_indices, search_indices) ->
  (Z.of_nat (length search_indices) <= max_population)%Z ->
  exists leaf,
    partition self max_population minimum_factor = inr leaf
    /\ cubes leaf = [Indices (query_indices, search_indices)]
    /\ partition_generator leaf = [(query_indices, search_indices)].
Proof.
  intros Hfresh Hlocal Hsize.
  exists (set_cubes self [Indices (query_indices, search_indices)]).
  split; [|split].
  - unfold partition. rewrite Hlocal. simpl.
    apply Z.leb_le in Hsize. rewrite Hsize, Hfresh. reflexivity.
  - apply cubes_set_cubes.
  - rewrite partition_generator_cubes, cubes_set_cubes. reflexivity.
Qed.

Lemma partition_leaf_witness :
  exists leaf,
    partition corner_node 2 3 = inr leaf
    /\ cubes leaf = [Indices ([0; 1]%nat, [0; 1]%nat)]
    /\ partition_generator leaf = [([0; 1]%nat, [0; 1]%nat)].
Proof.
  apply (partition_leaf corner_node 2 3 [0; 1]%nat [0; 1]%nat);
    [reflexivity | vm_compute; reflexivity | simpl; lia].
Defined.

End OctreeFacts.

Module Partitioning.
Import Regions Octree OctreeFacts.

Lemma corner_node_init : init two_corners two_corners 1 = inr corner_node.
Proof. reflexivity. Qed.

Lemma corner_node_half_init :
  init two_corners two_corners (1 # 2) = inr corner_node_half.
Proof. reflexivity. Qed.

(** [partition] on a constructed node: either the leaf is recorded, or the
    node is handed back unchanged. *)
Lemma partition_of_init (query_set0 search_space0 : cloud) (buffer_radius0 : Q)
    (self : NestedOctree) (max_population : Z) (minimum_factor : Q) :
  init query_set0 search_space0 buffer_radius0 = inr self ->
  let search_indices :=
    box_indices search_space0
      (sub_scalar (minimum_corner self) buffer_radius0)
      (add_scalar (maximum_corner self) buffer_radius0) in
  partition self max_population minimum_factor
  = inr (if (Z.of_nat (length search_indices) <=? max_population)%Z
         then set_cubes self [Indices (seq 0 (shape0 query_set0), search_indices)]
         else self).
Proof.
  intros Hinit search_indices. unfold partition.
  rewrite (local_indices_of_init _ _ _ _ Hinit). simpl.
  fold search_indices.
  destruct (init_fields _ _ _ _ Hinit) as (_ & _ & _ & _ & _ & Hfresh & _).
  rewrite Hfresh.
  destruct (Z.of_nat (length search_indices) <=? max_population)%Z;
    reflexivity.
Qed.

(** C4: after [partition] on a constructed node, which always returns,
    every pair yielded by [partition_generator] has at most
    [max_population] search indices. *)
Theorem population_bound (query_set0 search_space0 : cloud) (buffer_radius0 : Q)
    (self : NestedOctree) (max_population : Z) (minimum_factor : Q) :
  init query_set0 search_space0 buffer_radius0 = inr self ->
  exists node,
    partition self max_population minimum_factor = inr node
    /\ forall query_indices search_indices,
         In (query_indices, search_indices) (partition_generator node) ->
         (Z.of_nat (length search_indices) <= max_population)%Z.
Proof.
  intros Hinit.
  rewrite (partition_of_init _ _ _ _ max_population minimum_factor Hinit).
  eexists. split; [reflexivity|].
  intros q s. rewrite partition_generator_cubes.
  destruct (Z.leb_spec
              (Z.of_nat (length (box_indices search_space0
                 (sub_scalar (minimum_corner self) buffer_radius0)
                 (add_scalar (maximum_corner self) buffer_radius0))))
              max_population) as [Hle|Hgt].
  - rewrite cubes_set_cubes. simpl. intros [[= <- <-]|[]]. exact Hle.
  - destruct (init_fields _ _ _ _ Hinit) as (_ & _ & _ & _ & _ & Hfresh & _).
    rewrite Hfresh. simpl. contradiction.
Qed.

Lemma population_bound_witness :
  exists node,
    partition corner_node 2 3 = inr node
    /\ forall query_indices search_indices,
         In (query_indices, search_indices) (partition_generator node) ->
         (Z.of_nat (length search_indices) <= 2)%Z.
Proof.
  apply (population_bound two_corners two_corners 1 corner_node 2 3).
  reflexivity.
Defined.

(** When the local search population exceeds [max_population], [partition]
    leaves a constructed node as it was, and nothing is yielded. *)
Lemma partition_populated (query_set0 search_space0 : cloud) (buffer_radius0 : Q)
    (self : NestedOctree) (max_population : Z) (minimum_factor : Q) :
  init query_set0 search_space0 buffer_radius0 = inr self ->
  (max_population
   < Z.of_nat (length (box_indices search_space0
                         (sub_scalar (minimum_corner self) buffer_radius0)
                         (add_scalar (maximum_corner self) buffer_radius0))))%Z ->
  partition self max_population minimum_factor = inr self
  /\ cubes self = []
  /\ partition_generator self = [].
Proof.
  intros Hinit Hgt.
  rewrite (partition_of_init _ _ _ _ max_population minimum_factor Hinit).
  apply Z.leb_gt in Hgt. rewrite Hgt.
  destruct (init_fields _ _ _ _ Hinit) as (_ & _ & _ & _ & _ & Hfresh & _).
  rewrite partition_generator_cubes, Hfresh. repeat split.
Qed.

(** When the node is a leaf, the one yielded pair holds every query index. *)
Lemma partition_leaf_covers (query_set0 search_space0 : cloud)
    (buffer_radius0 : Q) (self node : NestedOctree) (max_population : Z)
    (minimum_factor : Q) :
  init query_set0 search_space0 buffer_radius0 = inr self ->
  partition self max_population minimum_factor = inr node ->
  forall query_indices search_indices,
    In (query_indices, search_indices) (partition_generator node) ->
    query_indices = seq 0 (shape0 query_set0).
Proof.
  intros Hinit.
  rewrite (partition_of_init _ _ _ _ max_population minimum_factor Hinit).
  intros [= <-] q s. rewrite partition_generator_cubes.
  destruct (_ <=? _)%Z.
  - rewrite cubes_set_cubes. simpl. now intros [[= <- <-]|[]].
  - destruct (init_fields _ _ _ _ Hinit) as (_ & _ & _ & _ & _ & Hfresh & _).
    rewrite Hfresh. simpl. contradiction.
Qed.

(** C1, at two query points with [max_population = 1]: both search points
    lie in the buffered region, the populated branch of [partition] builds
    nothing, and the generator yields no pair, so neither index 0 nor
    index 1 of the query set is covered. *)
Theorem populated_region_is_dropped :
  init two_corners two_corners 1 = inr corner_node
  /\ shape0 two_corners = 2%nat
  /\ nested_regions (query_set corner_node) (search_space corner_node)
                    (buffer_radius corner_node) (minimum_corner corner_node)
                    (maximum_corner corner_node)
     = inr ([0; 1]%nat, [0; 1]%nat)
  /\ partition corner_node 1 3 = inr corner_node
  /\ partition_generator corner_node = []
  /\ ~ (forall i, (i < 2)%nat ->
          exists p, In p (partition_generator corner_node) /\ In i (fst p)).
Proof.
  repeat split; try reflexivity.
  intros H. destruct (H 0%nat ltac:(lia)) as [p [[] _]].
Qed.

(** C2, at the same two points with [buffer_radius = 1/2]: the region is a
    cube of edge 4, the octants have edge 2 > 3 * (1/2), the octants at the
    two opposite corners hold one query point each, and yet [partition]
    gives the node no child. *)
Theorem populated_region_gets_no_children :
  init two_corners two_corners (1 # 2) = inr corner_node_half
  /\ (cube_edge corner_node_half == 2)%Q
  /\ (3 * buffer_radius corner_node_half < cube_edge corner_node_half)%Q
  /\ bind (naive_cube_generator corner_node_half (cube_edge corner_node_half))
          (fun octants => ret (map (fun o => shape0 (fst o)) octants))
     = inr [1; 0; 0; 0; 0; 0; 0; 1]%nat
  /\ exists node,
       partition corner_node_half 1 3 = inr node /\ cubes node = [].
Proof.
  repeat split; try reflexivity.
  exists corner_node_half. split; reflexivity.
Qed.

End Partitioning.

(** ** Machine integers and bit fields *)

Lemma int64_small (z : Z) : (- 2 ^ 63 <= z < 2 ^ 63)%Z -> int64 z = z.
Proof.
  intros H. unfold int64. rewrite Z.mod_small; lia.
Qed.

Lemma int64_mod (z : Z) : (int64 z mod 2 ^ 64 = z mod 2 ^ 64)%Z.
Proof.
  unfold int64. rewrite (Z.mod_eq (z + 2 ^ 63) (2 ^ 64)) by lia.
  replace (z + 2 ^ 63 - 2 ^ 64 * ((z + 2 ^ 63) / 2 ^ 64) - 2 ^ 63)%Z
    with (z + (- ((z + 2 ^ 63) / 2 ^ 64)) * 2 ^ 64)%Z by ring.
  apply Z.mod_add. lia.
Qed.

(** The field of width [w] at bit [s]. *)
Lemma field_testbit (a s w i : Z) :
  (0 <= s)%Z -> (0 <= w)%Z -> (0 <= i)%Z ->
  Z.testbit ((a / 2 ^ s) mod 2 ^ w) i = (i <? w)%Z && Z.testbit a (i + s).
Proof.
  intros Hs Hw Hi.
  rewrite <- Z.land_ones, <- Z.shiftr_div_pow2 by assumption.
  rewrite Z.land_spec, Z.shiftr_spec, Z.testbit_ones_nonneg by assumption.
  destruct (i <? w)%Z; [now rewrite andb_true_r | now rewrite andb_false_r].
Qed.

Lemma masked_field (a s w : Z) :
  (0 <= s)%Z -> (0 <= w)%Z ->
  Z.shiftr (Z.land a (Z.shiftl (Z.ones w) s)) s = ((a / 2 ^ s) mod 2 ^ w)%Z.
Proof.
  intros Hs Hw.
  rewrite Z.shiftr_land, Z.shiftr_shiftl_l by lia.
  rewrite Z.sub_diag, Z.shiftl_0_r, Z.land_ones, Z.shiftr_div_pow2 by lia.
  reflexivity.
Qed.

(** A field inside the low 64 bits only depends on the value modulo 2^64. *)
Lemma field_mod64 (a b s w : Z) :
  (0 <= s)%Z -> (0 <= w)%Z -> (s + w <= 64)%Z ->
  (a mod 2 ^ 64 = b mod 2 ^ 64)%Z ->
  ((a / 2 ^ s) mod 2 ^ w = (b / 2 ^ s) mod 2 ^ w)%Z.
Proof.
  intros Hs Hw Hsw Hab. apply Z.bits_inj'. intros i Hi.
  rewrite !field_testbit by assumption.
  destruct (Z.ltb_spec i w) as [Hlt|Hge]; [|reflexivity]. simpl.
  rewrite <- (Z.mod_pow2_bits_low a 64) by lia.
  rewrite <- (Z.mod_pow2_bits_low b 64) by lia.
  now rewrite Hab.
Qed.

(** ** Masks *)

Lemma binary_digits_ones (n : nat) :
  forall acc,
    binary_digits acc (string_repeat "1"%char n)
    = Some (acc * 2 ^ Z.of_nat n + Z.ones (Z.of_nat n))%Z.
Proof.
  induction n as [|n IH]; intros acc.
  - change (Some acc = Some (acc * 1 + 0)%Z). f_equal. lia.
  - change (string_repeat "1"%char (S n))
      with (String "1"%char (string_repeat "1"%char n)).
    change (binary_digits acc (String "1"%char (string_repeat "1"%char n)))
      with (binary_digits (2 * acc + 1)%Z (string_repeat "1"%char n)).
    rewrite IH. f_equal.
    rewrite !Z.ones_equiv, Nat2Z.inj_succ, Z.pow_succ_r by lia. lia.
Qed.

Lemma int_0b_ones_string (w : Z) :
  int_0b (ones_string w)
  = if (1 <=? w)%Z then inr (Z.ones w)
    else inl (ValueError "invalid literal for int() with base 2").
Proof.
  unfold ones_string. destruct w as [|p|p]; try reflexivity.
  destruct (Z.leb_spec 1 (Z.pos p)) as [_|H]; [|lia].
  pose proof (Pos2Nat.is_pos p) as Hp.
  simpl Z.to_nat.
  destruct (Pos.to_nat p) as [|n] eqn:E; [lia|].
  unfold int_0b.
  change (string_repeat "1"%char (S n))
    with (String "1"%char (string_repeat "1"%char n)).
  cbv iota beta.
  change (String "1"%char (string_repeat "1"%char n))
    with (string_repeat "1"%char (S n)).
  rewrite binary_digits_ones. unfold ret. f_equal.
  rewrite Z.mul_0_l, Z.add_0_l. f_equal.
  rewrite <- E. apply positive_nat_Z.
Qed.

(** ** The voxel filter *)

Module VoxelFacts.
Import Voxel.

Local Arguments int64 : simpl never.

(** Case analysis on the bounds checks of a successful call. *)
Ltac in_bounds_cases H :=
  repeat match type of H with
         | context [if ?b then _ else _] =>
             let E := fresh "E" in
             destruct b eqn:E; [discriminate H|]
         end.

(** Symbolic execution of the filter's methods on explicit rows. *)
Ltac run_filter :=
  cbv [coordinate_to_address check_in_bounds min0 max0 rows shape1
       shifts minimum_corner maximum_corner edge_length widths masks
       any_lt column reduce voxel_coordinates zip_with
       address_to_coordinate address_fields] in *;
  cbn [length Nat.add Nat.eqb negb seq map bind ret combine existsb fst snd
       nth fold_left orb on_tail with_shifts] in *.

Ltac encoded_address H Hadr address :=
  in_bounds_cases H;
  cbn [bind ret map rows combine fst snd on_tail with_shifts] in H;
  unfold ret in H;
  match type of H with
  | inr [?a] = _ => assert (Hadr : a = address) by congruence
  end;
  clear H.

Ltac split_forall2 H :=
  repeat match type of H with
         | Forall2 _ (_ :: _) (_ :: _) =>
             let Hx := fresh "Hx" in
             apply Forall2_cons_iff in H; destruct H as [Hx H]
         end.

Lemma grid_filter_init : init grid_points 1 = inr grid_filter.
Proof. reflexivity. Qed.

Lemma narrow_filter_init : init narrow_points 1 = inr narrow_filter.
Proof. reflexivity. Qed.

Lemma square_filter_init : init square_points 1 = inr square_filter.
Proof. reflexivity. Qed.

Lemma init_shape (points : cloud) (edge : Q) (self : VoxelFilter) :
  init points edge = inr self ->
  (shape1 points = 2%nat /\ planar self edge)
  \/ (shape1 points = 3%nat /\ spatial self edge).
Proof.
  intros Hinit. unfold init in Hinit.
  destruct ((shape1 points =? 2)%nat || (shape1 points =? 3)%nat) eqn:Hd;
    [|discriminate]. cbv [negb] in Hinit.
  destruct (Nat.ltb_spec (shape0 points) 2) as [|Hn]; [discriminate|].
  unfold min0, max0, shape0 in *.
  destruct (rows points) as [|r rs] eqn:Hrows; [simpl in Hn; lia|].
  clear Hn Hrows.
  apply orb_true_iff in Hd. destruct Hd as [Hd|Hd];
    apply Nat.eqb_eq in Hd; rewrite Hd in *; [left|right];
    (split; [reflexivity|]); revert Hinit;
    cbn [seq map bind ret sub_scalar add_scalar];
    unfold calculate_shift, address_widths, zip_with;
    cbn [combine map fst snd cumsum cumsum_from removelast zsum fold_left
         Z.add];
    match goal with |- context [(MAX_ADDRESS_LENGTH <? ?t)%Z] =>
      destruct (Z.ltb_spec MAX_ADDRESS_LENGTH t) as [|Hsum]; [discriminate|]
    end;
    cbn [bind ret fst snd]; unfold calculate_masks;
    cbn [collect bind ret]; rewrite !int_0b_ones_string;
    repeat match goal with |- context [(1 <=? ?w)%Z] =>
      destruct (Z.leb_spec 1 w); cbn [bind ret]; [|discriminate]
    end;
    intros [= <-]; unfold MAX_ADDRESS_LENGTH in Hsum;
    cbn [on_tail with_shifts];
    repeat eexists; try reflexivity; lia.
Qed.

(** *** Addresses *)

Lemma fold64_mod (l : list Z) :
  forall acc acc',
    (acc mod 2 ^ 64 = acc' mod 2 ^ 64)%Z ->
    (fold_left (fun a b => int64 (a + b)) l acc mod 2 ^ 64
     = fold_left Z.add l acc' mod 2 ^ 64)%Z.
Proof.
  induction l as [|x l IH]; intros acc acc' H; simpl; [exact H|].
  apply IH. rewrite int64_mod.
  rewrite (Zplus_mod acc), (Zplus_mod acc'), H. reflexivity.
Qed.

Lemma sum64_mod (l : list Z) : (sum64 l mod 2 ^ 64 = zsum l mod 2 ^ 64)%Z.
Proof. apply fold64_mod. reflexivity. Qed.

Lemma shl64_mod (g s : Z) :
  (0 <= s)%Z -> (shl64 g s mod 2 ^ 64 = (g * 2 ^ s) mod 2 ^ 64)%Z.
Proof.
  intros Hs. unfold shl64. now rewrite int64_mod, Z.shiftl_mul_pow2.
Qed.

Lemma planar_address (g0 g1 w0 : Z) :
  (0 <= w0)%Z ->
  (sum64 [g0; shl64 g1 w0] mod 2 ^ 64 = (g0 + g1 * 2 ^ w0) mod 2 ^ 64)%Z.
Proof.
  intros H0. rewrite sum64_mod. unfold zsum. simpl.
  rewrite Zplus_mod, shl64_mod, <- Zplus_mod by assumption. reflexivity.
Qed.

Lemma spatial_address (g0 g1 g2 w0 w1 : Z) :
  (0 <= w0)%Z -> (0 <= w1)%Z ->
  (sum64 [g0; shl64 g1 w0; shl64 g2 (w0 + w1)] mod 2 ^ 64
   = (g0 + g1 * 2 ^ w0 + g2 * 2 ^ (w0 + w1)) mod 2 ^ 64)%Z.
Proof.
  intros H0 H1. rewrite sum64_mod. unfold zsum. simpl.
  rewrite Zplus_mod, shl64_mod by lia.
  rewrite (Zplus_mod g0), (shl64_mod g1) by lia.
  rewrite <- (Zplus_mod g0), <- Zplus_mod. reflexivity.
Qed.

(** A field between lower and higher fields is read back unchanged. *)
Lemma field_mid (low g high s w : Z) :
  (0 <= s)%Z -> (0 <= w)%Z -> (0 <= low < 2 ^ s)%Z -> (0 <= g < 2 ^ w)%Z ->
  (((low + g * 2 ^ s + high * 2 ^ (s + w)) / 2 ^ s) mod 2 ^ w = g)%Z.
Proof.
  intros Hs Hw Hlow Hg.
  replace (low + g * 2 ^ s + high * 2 ^ (s + w))%Z
    with (low + (g + high * 2 ^ w) * 2 ^ s)%Z
    by (rewrite Z.pow_add_r by assumption; ring).
  rewrite Z.div_add, Z.div_small, Z.add_0_l, Z.mod_add by lia.
  now apply Z.mod_small.
Qed.

(** *** Cell centres *)

Lemma floor_center (g : Z) (m e : Q) :
  (0 < e)%Q ->
  Qfloor ((inject_Z g * e + m + e * (1 # 2) - m) / e) = g.
Proof.
  intros He.
  assert (Heq : ((inject_Z g * e + m + e * (1 # 2) - m) / e
                 == inject_Z g + (1 # 2))%Q).
  { field. intros H. rewrite H in He. now apply Qlt_irrefl in He. }
  rewrite Heq.
  assert (Hlo : (g <= Qfloor (inject_Z g + (1 # 2)))%Z).
  { rewrite <- (Qfloor_Z g) at 1. apply Qfloor_resp_le. lra. }
  assert (Hhi : (Qfloor (inject_Z g + (1 # 2)) < g + 1)%Z).
  { rewrite Zlt_Qlt. eapply Qle_lt_trans; [apply Qfloor_le|].
    rewrite inject_Z_plus. change (inject_Z 1) with 1%Q. lra. }
  lia.
Qed.

Lemma center_not_below (g : Z) (m e : Q) :
  (0 <= g)%Z -> (0 < e)%Q ->
  Qltb (inject_Z g * e + m + e * (1 # 2)) m = false.
Proof.
  intros Hg He. unfold Qltb. apply negb_false_iff, Qle_bool_iff.
  assert (0 <= inject_Z g * e)%Q.
  { apply Qmult_le_0_compat; [|now apply Qlt_le_weak].
    change 0%Q with (inject_Z 0). now rewrite <- Zle_Qle. }
  lra.
Qed.

Lemma Qltb_false_iff (x y : Q) : Qltb x y = false <-> (y <= x)%Q.
Proof.
  unfold Qltb. rewrite negb_false_iff. apply Qle_bool_iff.
Qed.

Lemma not_above (c M : Q) : (c <= M)%Q -> Qltb M c = false.
Proof.
  intros H. unfold Qltb. now apply negb_false_iff, Qle_bool_iff.
Qed.

Lemma field_of (a T low g high s w : Z) :
  (a mod 2 ^ 64 = T mod 2 ^ 64)%Z ->
  T = (low + g * 2 ^ s + high * 2 ^ (s + w))%Z ->
  (0 <= s)%Z -> (0 <= w)%Z -> (s + w <= 64)%Z ->
  (0 <= low < 2 ^ s)%Z -> (0 <= g < 2 ^ w)%Z ->
  ((a / 2 ^ s) mod 2 ^ w = g)%Z.
Proof.
  intros Ha -> Hs Hw Hsw Hlow Hg.
  rewrite (field_mod64 a _ s w Hs Hw Hsw Ha).
  now apply field_mid.
Qed.

(** The grid coordinates packed into an address are read back from its
    bits. *)
Lemma planar_cells (g0 g1 w0 w1 : Z) :
  (1 <= w0)%Z -> (1 <= w1)%Z -> (w0 + w1 <= 64)%Z ->
  (0 <= g0 < 2 ^ w0)%Z -> (0 <= g1 < 2 ^ w1)%Z ->
  let a := sum64 [g0; shl64 g1 w0] in
  ((a / 2 ^ 0) mod 2 ^ w0 = g0 /\ (a / 2 ^ w0) mod 2 ^ w1 = g1)%Z.
Proof.
  intros H0 H1 Hsum Hg0 Hg1 a.
  pose proof (planar_address g0 g1 w0 ltac:(lia)) as Ha. fold a in Ha.
  split.
  - apply (field_of a _ 0 g0 g1 0 w0 Ha); try lia.
    change (0 + w0)%Z with w0. rewrite Z.pow_0_r. ring.
  - apply (field_of a _ g0 g1 0 w0 w1 Ha); try lia.
Qed.

Lemma spatial_cells (g0 g1 g2 w0 w1 w2 : Z) :
  (1 <= w0)%Z -> (1 <= w1)%Z -> (1 <= w2)%Z -> (w0 + w1 + w2 <= 64)%Z ->
  (0 <= g0 < 2 ^ w0)%Z -> (0 <= g1 < 2 ^ w1)%Z -> (0 <= g2 < 2 ^ w2)%Z ->
  let a := sum64 [g0; shl64 g1 w0; shl64 g2 (w0 + w1)] in
  ((a / 2 ^ 0) mod 2 ^ w0 = g0 /\ (a / 2 ^ w0) mod 2 ^ w1 = g1
   /\ (a / 2 ^ (w0 + w1)) mod 2 ^ w2 = g2)%Z.
Proof.
  intros H0 H1 H2 Hsum Hg0 Hg1 Hg2 a.
  pose proof (spatial_address g0 g1 g2 w0 w1 ltac:(lia) ltac:(lia)) as Ha.
  fold a in Ha.
  assert (Hp : (2 ^ (w0 + w1) = 2 ^ w0 * 2 ^ w1)%Z)
    by (apply Z.pow_add_r; lia).
  split; [|split].
  - apply (field_of a _ 0 g0 (g1 + g2 * 2 ^ w1) 0 w0 Ha); try lia.
    change (0 + w0)%Z with w0. rewrite Z.pow_0_r, Hp. ring.
  - apply (field_of a _ g0 g1 g2 w0 w1 Ha); try lia.
  - apply (field_of a _ (g0 + g1 * 2 ^ w0) g2 0 (w0 + w1) w2 Ha); try lia.
    rewrite Hp. nia.
Qed.

Lemma coordinate_small (g w : Z) :
  (0 <= g < 2 ^ w)%Z -> (w <= 63)%Z -> int64 g = g.
Proof.
  intros Hg Hw. apply int64_small.
  assert (2 ^ w <= 2 ^ 63)%Z by (apply Z.pow_le_mono_r; lia). lia.
Qed.

(** *** Masks and addresses as [np.int64] *)

Lemma int64_range (z : Z) : (- 2 ^ 63 <= int64 z < 2 ^ 63)%Z.
Proof.
  unfold int64. pose proof (Z.mod_pos_bound (z + 2 ^ 63) (2 ^ 64)). lia.
Qed.

Lemma congruent_small (a t : Z) :
  (- 2 ^ 63 <= a < 2 ^ 63)%Z -> (0 <= t < 2 ^ 63)%Z ->
  (a mod 2 ^ 64 = t mod 2 ^ 64)%Z -> a = t.
Proof.
  intros Ha Ht H. rewrite (Z.mod_small t) in H by lia.
  destruct (Z.neg_nonneg_cases a) as [Hneg|Hpos].
  - replace a with (a + 2 ^ 64 + (-1) * 2 ^ 64)%Z in H by ring.
    rewrite Z.mod_add, Z.mod_small in H by lia. lia.
  - rewrite Z.mod_small in H by lia. exact H.
Qed.

Lemma sum64_range (l : list Z) :
  l <> [] -> (- 2 ^ 63 <= sum64 l < 2 ^ 63)%Z.
Proof.
  unfold sum64. generalize 0%Z as acc.
  induction l as [|x l IH]; intros acc Hne; [contradiction|].
  cbn [fold_left]. destruct l as [|y l].
  - cbn [fold_left]. apply int64_range.
  - apply IH. discriminate.
Qed.

Lemma encoded_int64 (self : VoxelFilter) (points : cloud) (address : Z) :
  coordinate_to_address self points = inr [address] ->
  (- 2 ^ 63 <= address < 2 ^ 63)%Z.
Proof.
  unfold coordinate_to_address.
  destruct (check_in_bounds self points) as [|checked]; [discriminate|].
  cbn [bind]. unfold ret. intros H.
  destruct (rows checked) as [|p [|q l]]; try discriminate H.
  cbn [map] in H. assert (Ha : address = sum64 (on_tail shl64
    (voxel_coordinates self p) (shifts self))) by congruence.
  rewrite Ha. clear.
  destruct (on_tail shl64 (voxel_coordinates self p) (shifts self)) as [|x l].
  - vm_compute. split; [discriminate|reflexivity].
  - apply sum64_range. discriminate.
Qed.

Lemma int64_array_one (a : Z) :
  (- 2 ^ 63 <= a < 2 ^ 63)%Z -> int64_array [a] = true.
Proof.
  intros [H1 H2]. unfold int64_array. cbn [forallb].
  apply Z.leb_le in H1. apply Z.ltb_lt in H2. now rewrite H1, H2.
Qed.

(** A mask that stays below bit 63 is not changed by the shift; one that
    reaches bit 63 wraps to the negative number with every bit from the
    shift upwards set. *)
Lemma wrapped_mask (s w : Z) :
  (0 <= s)%Z -> (1 <= w)%Z -> (s + w <= 64)%Z ->
  shl64 (Z.ones w) s
  = if (s + w <=? 63)%Z then Z.shiftl (Z.ones w) s else Z.lnot (Z.ones s).
Proof.
  intros Hs Hw Hsw. unfold shl64.
  rewrite Z.shiftl_mul_pow2, Z.ones_equiv by lia.
  assert (Hp : (2 ^ (s + w) = 2 ^ s * 2 ^ w)%Z) by (apply Z.pow_add_r; lia).
  assert (Hs0 : (0 < 2 ^ s)%Z) by (apply Z.pow_pos_nonneg; lia).
  assert (Hw0 : (0 < 2 ^ w)%Z) by (apply Z.pow_pos_nonneg; lia).
  destruct (Z.leb_spec (s + w) 63) as [Hle|Hgt].
  - apply int64_small.
    assert (2 ^ (s + w) <= 2 ^ 63)%Z by (apply Z.pow_le_mono_r; lia). nia.
  - assert (Hsw64 : (s + w = 64)%Z) by lia. rewrite Hsw64 in Hp.
    assert (Hs63 : (2 ^ s <= 2 ^ 63)%Z) by (apply Z.pow_le_mono_r; lia).
    unfold int64, Z.lnot. rewrite Z.ones_equiv.
    replace (Z.pred (2 ^ w) * 2 ^ s + 2 ^ 63)%Z
      with (2 ^ 63 - 2 ^ s + 1 * 2 ^ 64)%Z by lia.
    rewrite Z.mod_add, Z.mod_small by lia. lia.
Qed.

(** Reading a field through a mask stored as [np.int64]. *)
Lemma masked_field64 (a s w : Z) :
  (0 <= s)%Z -> (1 <= w)%Z -> (s + w <= 64)%Z ->
  (0 <= a < 2 ^ 63 \/ s + w <= 63)%Z ->
  Z.shiftr (Z.land a (shl64 (Z.ones w) s)) s = ((a / 2 ^ s) mod 2 ^ w)%Z.
Proof.
  intros Hs Hw Hsw Ha. rewrite wrapped_mask by assumption.
  destruct (Z.leb_spec (s + w) 63) as [Hle|Hgt].
  - apply masked_field; lia.
  - destruct Ha as [Ha|Ha]; [|lia].
    apply Z.bits_inj'. intros i Hi.
    rewrite field_testbit, Z.shiftr_spec, Z.land_spec, Z.lnot_spec by lia.
    rewrite Z.testbit_ones_nonneg by lia.
    destruct (Z.ltb_spec (i + s) s) as [|_]; [lia|].
    cbn [negb]. rewrite andb_true_r.
    destruct (Z.ltb_spec i w) as [|Hge]; [reflexivity|]. cbn [andb].
    rewrite <- (Z.mod_small a (2 ^ 63)) by lia.
    apply Z.mod_pow2_bits_high. lia.
Qed.

(** Decoding one [np.int64] address, in two and in three dimensions.  With
    widths that add up to 64 the highest field of a negative address is read
    with its sign, so the address is taken non-negative there. *)
Lemma decode_planar (m0 m1 M0 M1 edge : Q) (w0 w1 a : Z) :
  let self := mkVoxelFilter [m0; m1] [M0; M1] edge [w0] [w0; w1]
                            [Z.ones w0; shl64 (Z.ones w1) w0] in
  (1 <= w0 /\ 1 <= w1 /\ w0 + w1 <= 64)%Z ->
  (- 2 ^ 63 <= a < 2 ^ 63)%Z ->
  (0 <= a \/ w0 + w1 <= 63)%Z ->
  address_to_coordinate self [a]
  = inr (mkCloud 2
           [[inject_Z ((a / 2 ^ 0) mod 2 ^ w0) * edge + m0 + edge * (1 # 2);
             inject_Z ((a / 2 ^ w0) mod 2 ^ w1) * edge + m1
             + edge * (1 # 2)]%Q]).
Proof.
  intros self (Hw0 & Hw1 & Hsum) Hr Ha. subst self.
  unfold address_to_coordinate. rewrite (int64_array_one a Hr).
  cbn [negb andb].
  cbv [address_fields masks shifts minimum_corner edge_length zip_with ret].
  cbn [length map combine fst snd on_tail with_shifts].
  rewrite Z.land_ones, masked_field64 by lia.
  now rewrite Z.pow_0_r, Z.div_1_r.
Qed.

Lemma decode_spatial (m0 m1 m2 M0 M1 M2 edge : Q) (w0 w1 w2 a : Z) :
  let self := mkVoxelFilter [m0; m1; m2] [M0; M1; M2] edge
                            [w0; (w0 + w1)%Z] [w0; w1; w2]
                            [Z.ones w0; shl64 (Z.ones w1) w0;
                             shl64 (Z.ones w2) (w0 + w1)] in
  (1 <= w0 /\ 1 <= w1 /\ 1 <= w2 /\ w0 + w1 + w2 <= 64)%Z ->
  (- 2 ^ 63 <= a < 2 ^ 63)%Z ->
  (0 <= a \/ w0 + w1 + w2 <= 63)%Z ->
  address_to_coordinate self [a]
  = inr (mkCloud 3
           [[inject_Z ((a / 2 ^ 0) mod 2 ^ w0) * edge + m0 + edge * (1 # 2);
             inject_Z ((a / 2 ^ w0) mod 2 ^ w1) * edge + m1 + edge * (1 # 2);
             inject_Z ((a / 2 ^ (w0 + w1)) mod 2 ^ w2) * edge + m2
             + edge * (1 # 2)]%Q]).
Proof.
  intros self (Hw0 & Hw1 & Hw2 & Hsum) Hr Ha. subst self.
  unfold address_to_coordinate. rewrite (int64_array_one a Hr).
  cbn [negb andb].
  cbv [address_fields masks shifts minimum_corner edge_length zip_with ret].
  cbn [length map combine fst snd on_tail with_shifts].
  rewrite Z.land_ones, !masked_field64 by lia.
  now rewrite Z.pow_0_r, Z.div_1_r.
Qed.

(** The round trip in two dimensions, on the fields of a constructed
    filter. *)
Lemma planar_round_trip (m0 m1 M0 M1 edge : Q) (w0 w1 : Z) (x0 x1 : Q)
    (address : Z) :
  let self := mkVoxelFilter [m0; m1] [M0; M1] edge [w0] [w0; w1]
                            [Z.ones w0; shl64 (Z.ones w1) w0] in
  (1 <= w0 /\ 1 <= w1 /\ w0 + w1 <= 64)%Z ->
  (0 < edge)%Q ->
  coordinate_to_address self (mkCloud 2 [[x0; x1]]) = inr [address] ->
  Forall2 (fun g w => (0 <= g < 2 ^ w)%Z)
          (voxel_coordinates self [x0; x1]) (widths self) ->
  (0 <= address)%Z ->
  (forall centers, address_to_coordinate self [address] = inr centers ->
     Forall (fun c => Forall2 Qle c (maximum_corner self)) (rows centers)) ->
  bind (address_to_coordinate self [address]) (coordinate_to_address self)
  = inr [address].
Proof.
  intros self Hw He Henc Hfit Hpos Hin.
  pose proof Hw as (Hw0 & Hw1 & Hsum). subst self.
  pose proof (encoded_int64 _ _ _ Henc) as Hr.
  rewrite (decode_planar m0 m1 M0 M1 edge w0 w1 address Hw Hr) in *
    by (left; exact Hpos).
  specialize (Hin _ eq_refl). cbn [bind].
  run_filter. encoded_address Henc Hadr address.
  split_forall2 Hfit.
  set (g0 := int64 (Qfloor ((x0 - m0) / edge))) in *.
  set (g1 := int64 (Qfloor ((x1 - m1) / edge))) in *.
  destruct (planar_cells g0 g1 w0 w1) as [F0 F1]; try assumption.
  cbv zeta in F0, F1. rewrite Hadr in F0, F1.
  rewrite F0, F1 in *.
  apply Forall_cons_iff in Hin. destruct Hin as [Hin _].
  split_forall2 Hin.
  rewrite !center_not_below, !not_above by (assumption || lia).
  cbn [orb bind ret map rows combine fst snd on_tail with_shifts].
  rewrite !floor_center by assumption.
  rewrite (coordinate_small g0 w0), (coordinate_small g1 w1)
    by (assumption || lia).
  now rewrite Hadr.
Qed.

(** The same in three dimensions. *)
Lemma spatial_round_trip (m0 m1 m2 M0 M1 M2 edge : Q) (w0 w1 w2 : Z)
    (x0 x1 x2 : Q) (address : Z) :
  let self := mkVoxelFilter [m0; m1; m2] [M0; M1; M2] edge
                            [w0; (w0 + w1)%Z] [w0; w1; w2]
                            [Z.ones w0; shl64 (Z.ones w1) w0;
                             shl64 (Z.ones w2) (w0 + w1)] in
  (1 <= w0 /\ 1 <= w1 /\ 1 <= w2 /\ w0 + w1 + w2 <= 64)%Z ->
  (0 < edge)%Q ->
  coordinate_to_address self (mkCloud 3 [[x0; x1; x2]]) = inr [address] ->
  Forall2 (fun g w => (0 <= g < 2 ^ w)%Z)
          (voxel_coordinates self [x0; x1; x2]) (widths self) ->
  (0 <= address)%Z ->
  (forall centers, address_to_coordinate self [address] = inr centers ->
     Forall (fun c => Forall2 Qle c (maximum_corner self)) (rows centers)) ->
  bind (address_to_coordinate self [address]) (coordinate_to_address self)
  = inr [address].
Proof.
  intros self Hw He Henc Hfit Hpos Hin.
  pose proof Hw as (Hw0 & Hw1 & Hw2 & Hsum). subst self.
  pose proof (encoded_int64 _ _ _ Henc) as Hr.
  rewrite (decode_spatial m0 m1 m2 M0 M1 M2 edge w0 w1 w2 address Hw Hr) in *
    by (left; exact Hpos).
  specialize (Hin _ eq_refl). cbn [bind].
  run_filter. encoded_address Henc Hadr address.
  split_forall2 Hfit.
  set (g0 := int64 (Qfloor ((x0 - m0) / edge))) in *.
  set (g1 := int64 (Qfloor ((x1 - m1) / edge))) in *.
  set (g2 := int64 (Qfloor ((x2 - m2) / edge))) in *.
  destruct (spatial_cells g0 g1 g2 w0 w1 w2) as (F0 & F1 & F2);
    try assumption.
  cbv zeta in F0, F1, F2. rewrite Hadr in F0, F1, F2.
  rewrite F0, F1, F2 in *.
  apply Forall_cons_iff in Hin. destruct Hin as [Hin _].
  split_forall2 Hin.
  rewrite !center_not_below, !not_above by (assumption || lia).
  cbn [orb bind ret map rows combine fst snd on_tail with_shifts].
  rewrite !floor_center by assumption.
  rewrite (coordinate_small g0 w0), (coordinate_small g1 w1),
    (coordinate_small g2 w2) by (assumption || lia).
  now rewrite Hadr.
Qed.

(** C6 (amended): a non-negative address produced from an in-bounds point
    whose grid coordinates fit their bit widths, and whose cell centre is
    not beyond the maximum corner, is returned unchanged by decoding and
    encoding again. *)
Theorem round_trip (points : cloud) (edge : Q) (self : VoxelFilter)
    (p : point) (address : Z) :
  init points edge = inr self ->
  (0 < edge)%Q ->
  length p = shape1 points ->
  coordinate_to_address self (mkCloud (shape1 points) [p]) = inr [address] ->
  Forall2 (fun g w => (0 <= g < 2 ^ w)%Z)
          (voxel_coordinates self p) (widths self) ->
  (0 <= address)%Z ->
  (forall centers, address_to_coordinate self [address] = inr centers ->
     Forall (fun c => Forall2 Qle c (maximum_corner self)) (rows centers)) ->
  bind (address_to_coordinate self [address]) (coordinate_to_address self)
  = inr [address].
Proof.
  intros Hinit He Hlen Henc Hfit Hpos Hin.
  destruct (init_shape _ _ _ Hinit)
    as [[Hd (m0 & m1 & M0 & M1 & w0 & w1 & -> & Hw)]
       |[Hd (m0 & m1 & m2 & M0 & M1 & M2 & w0 & w1 & w2 & -> & Hw)]];
    rewrite Hd in *; clear Hinit Hd.
  - destruct p as [|x0 [|x1 [|x2 p]]]; try discriminate Hlen.
    now apply (planar_round_trip m0 m1 M0 M1 edge w0 w1 x0 x1).
  - destruct p as [|x0 [|x1 [|x2 [|x3 p]]]]; try discriminate Hlen.
    now apply (spatial_round_trip m0 m1 m2 M0 M1 M2 edge w0 w1 w2 x0 x1 x2).
Qed.

Lemma round_trip_witness :
  bind (address_to_coordinate grid_filter [19%Z])
       (coordinate_to_address grid_filter)
  = inr [19%Z].
Proof.
  apply (round_trip grid_points 1 grid_filter [3; 4]%Q 19%Z).
  - reflexivity.
  - reflexivity.
  - reflexivity.
  - reflexivity.
  - repeat constructor; vm_compute; discriminate.
  - lia.
  - intros centers H. vm_compute in H. injection H as <-.
    repeat constructor; vm_compute; discriminate.
Defined.

(** C6, as stated, fails on a point inside the bounding region: the cell that
    holds [(5/8, 0)] has its centre at [(1, 0)], beyond the maximum corner
    [(3/4, 3/4)], and encoding the decoded centre raises. *)
Lemma round_trip_leaves_bounds :
  init narrow_points 1 = inr narrow_filter
  /\ coordinate_to_address narrow_filter (cloud_of 2 [[5 # 8; 0]]%Q)
     = inr [1%Z]
  /\ bind (address_to_coordinate narrow_filter [1%Z])
          (coordinate_to_address narrow_filter)
     = inl (ValueError "some points fall outside filter bounding region")
  /\ bind (address_to_coordinate narrow_filter [1%Z])
          (coordinate_to_address narrow_filter)
     <> inr [1%Z].
Proof.
  repeat split; try reflexivity. discriminate.
Qed.

(** A point on the maximum face of the region passes the bounds check with a
    grid coordinate of [2 ^ width]: its bit falls outside every mask, and
    the address decodes to another cell. *)
Lemma round_trip_on_maximum_face :
  init square_points 1 = inr square_filter
  /\ coordinate_to_address square_filter (cloud_of 2 [[0; 15 # 2]]%Q)
     = inr [32%Z]
  /\ voxel_coordinates square_filter [0; 15 # 2]%Q = [0; 8]%Z
  /\ widths square_filter = [2; 3]%Z
  /\ bind (address_to_coordinate square_filter [32%Z])
          (coordinate_to_address square_filter)
     = inr [0%Z].
Proof.
  repeat split; reflexivity.
Qed.

(** With widths that add up to 64 the address of a cell in the upper half of
    the last axis is negative: its highest field is read back with the sign,
    the decoded centre lies below the region, and encoding it raises. *)
Lemma round_trip_of_negative_address :
  init full_points 1 = inr full_filter
  /\ masks full_filter = [4294967295; -4294967296]%Z
  /\ coordinate_to_address full_filter (cloud_of 2 [[0; 4294967295]]%Q)
     = inr [(-4294967296)%Z]
  /\ address_to_coordinate full_filter [(-4294967296)%Z]
     = inr (mkCloud 2 [[0 # 4; -4 # 4]]%Q)
  /\ bind (address_to_coordinate full_filter [(-4294967296)%Z])
          (coordinate_to_address full_filter)
     = inl (ValueError "some points fall outside filter bounding region").
Proof.
  repeat split; vm_compute; reflexivity.
Qed.

(** With widths that add up to at most 63 the address of grid coordinates
    that fit their widths is never negative. *)
Lemma fitting_address_not_negative (points : cloud) (edge : Q)
    (self : VoxelFilter) (p : point) (address : Z) :
  init points edge = inr self ->
  length p = shape1 points ->
  coordinate_to_address self (mkCloud (shape1 points) [p]) = inr [address] ->
  Forall2 (fun g w => (0 <= g < 2 ^ w)%Z)
          (voxel_coordinates self p) (widths self) ->
  (zsum (widths self) <= 63)%Z ->
  (0 <= address)%Z.
Proof.
  intros Hinit Hlen Henc Hfit Hsum.
  pose proof (encoded_int64 _ _ _ Henc) as Hr.
  destruct (init_shape _ _ _ Hinit)
    as [[Hd (m0 & m1 & M0 & M1 & w0 & w1 & -> & Hw0 & Hw1 & _)]
       |[Hd (m0 & m1 & m2 & M0 & M1 & M2 & w0 & w1 & w2 & ->
             & Hw0 & Hw1 & Hw2 & _)]];
    rewrite Hd in *; clear Hinit Hd;
    cbv [widths zsum] in Hsum; cbn [fold_left Z.add] in Hsum.
  - destruct p as [|x0 [|x1 [|x2 p]]]; try discriminate Hlen.
    run_filter. encoded_address Henc Hadr address.
    split_forall2 Hfit.
    set (g0 := int64 (Qfloor ((x0 - m0) / edge))) in *.
    set (g1 := int64 (Qfloor ((x1 - m1) / edge))) in *.
    pose proof (planar_address g0 g1 w0 ltac:(lia)) as Ha.
    rewrite Hadr in Ha.
    assert (Hp : (2 ^ (w0 + w1) = 2 ^ w0 * 2 ^ w1)%Z)
      by (apply Z.pow_add_r; lia).
    assert (Hle : (2 ^ (w0 + w1) <= 2 ^ 63)%Z)
      by (apply Z.pow_le_mono_r; lia).
    rewrite (congruent_small address (g0 + g1 * 2 ^ w0)); [nia|lia|nia|exact Ha].
  - destruct p as [|x0 [|x1 [|x2 [|x3 p]]]]; try discriminate Hlen.
    run_filter. encoded_address Henc Hadr address.
    split_forall2 Hfit.
    set (g0 := int64 (Qfloor ((x0 - m0) / edge))) in *.
    set (g1 := int64 (Qfloor ((x1 - m1) / edge))) in *.
    set (g2 := int64 (Qfloor ((x2 - m2) / edge))) in *.
    pose proof (spatial_address g0 g1 g2 w0 w1 ltac:(lia) ltac:(lia)) as Ha.
    rewrite Hadr in Ha.
    assert (Hp : (2 ^ (w0 + w1) = 2 ^ w0 * 2 ^ w1)%Z)
      by (apply Z.pow_add_r; lia).
    assert (Hp' : (2 ^ (w0 + w1 + w2) = 2 ^ (w0 + w1) * 2 ^ w2)%Z)
      by (apply Z.pow_add_r; lia).
    assert (Hle : (2 ^ (w0 + w1 + w2) <= 2 ^ 63)%Z)
      by (apply Z.pow_le_mono_r; lia).
    assert (H01 : (0 <= g0 + g1 * 2 ^ w0 < 2 ^ (w0 + w1))%Z) by nia.
    rewrite (congruent_small address
               (g0 + g1 * 2 ^ w0 + g2 * 2 ^ (w0 + w1)));
      [nia|lia|nia|exact Ha].
Qed.

(** C7: the filter built from [[0,0],[3,4]] with edge length 1. *)
Theorem addressing_example :
  exists self,
    init grid_points 1 = inr self
    /\ same_point (minimum_corner self) [-(1 # 2); -(1 # 2)]%Q
    /\ same_point (maximum_corner self) [7 # 2; 9 # 2]%Q
    /\ widths self = [2; 3]%Z
    /\ shifts self = [2]%Z
    /\ axis_shifts self = [0; 2]%Z
    /\ masks self = [3; 28]%Z
    /\ coordinate_to_address self (cloud_of 2 [[0; 0]]%Q) = inr [0%Z]
    /\ coordinate_to_address self (cloud_of 2 [[3; 4]]%Q) = inr [19%Z]
    /\ exists centers,
         address_to_coordinate self [19%Z] = inr centers
         /\ Forall2 same_point (rows centers) [[3; 4]]%Q.
Proof.
  exists grid_filter.
  split; [reflexivity|].
  do 2 (split; [repeat constructor; reflexivity|]).
  do 6 (split; [reflexivity|]).
  eexists. split; [reflexivity|]. repeat constructor; reflexivity.
Qed.

(** C9: both neighbour queries raise [NameError] on every filter and every
    address, and return no address. *)
Theorem neighbors_raise (self : VoxelFilter) (address : Z) :
  find_neighbors self address
  = inl (NameError "find_neighbors not implemented yet")
  /\ find_facing_neighbors self address
     = inl (NameError "find_facing_neighbors not implemented yet").
Proof.
  split; reflexivity.
Qed.

(** *** Bit widths *)

(** [ceil_log2 x] is the least [w] with [x <= 2 ^ w], for [1 <= x]. *)
Lemma ceil_log2_bounds (x : Q) :
  (1 <= x)%Q ->
  (x <= inject_Z (2 ^ ceil_log2 x))%Q
  /\ ((1 < x)%Q -> (inject_Z (2 ^ (ceil_log2 x - 1)) < x)%Q).
Proof.
  intros Hx. unfold ceil_log2.
  apply Qle_bool_iff in Hx as Hb. rewrite Hb.
  pose proof (Qle_ceiling x) as Hc.
  pose proof (Qceiling_lt x) as Hc'.
  assert (H1 : (1 <= Qceiling x)%Z).
  { rewrite Zle_Qle. change (inject_Z 1) with 1%Q.
    eapply Qle_trans; eassumption. }
  destruct (Z.eq_dec (Qceiling x) 1) as [E|E].
  - rewrite E in *. change (Z.log2_up 1) with 0%Z. split.
    + exact Hc.
    + intros Hgt. exfalso. change (inject_Z 1) with 1%Q in Hc. lra.
  - destruct (Z.log2_up_spec (Qceiling x)) as [Hlo Hhi]; [lia|]. split.
    + eapply Qle_trans; [exact Hc|]. now rewrite <- Zle_Qle.
    + intros _. eapply Qle_lt_trans; [|exact Hc'].
      rewrite <- Zle_Qle. rewrite <- Z.sub_1_r in Hlo. lia.
Qed.

Lemma address_widths_nth (low high : point) (edge : Q) (k : nat) :
  (k < length low)%nat -> length high = length low ->
  nth k (address_widths low high edge) 0%Z
  = ceil_log2 ((nth k high 0 - nth k low 0) / edge).
Proof.
  unfold address_widths, zip_with. rewrite map_map.
  revert high k. induction low as [|l low IH]; intros [|h high] k Hk Hlen;
    simpl in *; try lia.
  destruct k as [|k]; [reflexivity|]. apply IH; lia.
Qed.

(** C8: when the bit widths of the axes add up to more than 64, the
    construction raises the error of [_calculate_shift] and returns no
    filter. *)
Theorem unaddressable_region (points : cloud) (edge : Q)
    (lowest highest : point) :
  (shape1 points = 2 \/ shape1 points = 3)%nat ->
  (2 <= shape0 points)%nat ->
  min0 points = inr lowest ->
  max0 points = inr highest ->
  (MAX_ADDRESS_LENGTH
   < zsum (address_widths (sub_scalar lowest (edge / 2))
                          (add_scalar highest (edge / 2)) edge))%Z ->
  init points edge
  = inl (ValueError "edge length is too small to address this space").
Proof.
  intros Hd Hn Hlow Hhigh Hsum. unfold init.
  replace ((shape1 points =? 2)%nat || (shape1 points =? 3)%nat) with true
    by (symmetry; apply orb_true_iff; rewrite !Nat.eqb_eq; exact Hd).
  apply Nat.ltb_ge in Hn. rewrite Hn, Hlow, Hhigh.
  cbn [negb bind ret]. unfold calculate_shift.
  apply Z.ltb_lt in Hsum. rewrite Hsum. reflexivity.
Qed.

Lemma unaddressable_region_witness :
  init wide_points (1 # 1000000)
  = inl (ValueError "edge length is too small to address this space")
  /\ init wide_points_3d (1 # 1000000)
     = inl (ValueError "edge length is too small to address this space").
Proof.
  split.
  - apply (unaddressable_region wide_points (1 # 1000000) [0; 0]%Q
             [1000000000; 1000000000]%Q).
    + left. reflexivity.
    + vm_compute. lia.
    + reflexivity.
    + reflexivity.
    + vm_compute. reflexivity.
  - apply (unaddressable_region wide_points_3d (1 # 1000000) [0; 0; 0]%Q
             [1000000000; 1000000000; 1000000000]%Q).
    + right. reflexivity.
    + vm_compute. lia.
    + reflexivity.
    + reflexivity.
    + vm_compute. reflexivity.
Defined.

(** *** Decoding *)

(** C10 (amended): [address_to_coordinate] checks neither bounds nor
    dimensionality.  On a constructed filter it gives, for every
    non-negative integer below [2 ^ 63], one point of the filter's
    dimensionality: the centre of the cell named by the masked bits.  The
    bounds are checked by [coordinate_to_address] alone, which refuses the
    centre decoded from address 27, and bits above every mask are dropped
    in silence. *)
Theorem decode_checks_nothing :
  (forall points edge self address,
      init points edge = inr self ->
      (0 <= address < 2 ^ 63)%Z ->
      exists center,
        address_to_coordinate self [address]
        = inr (mkCloud (shape1 points) [center])
        /\ length center = shape1 points
        /\ forall k, (k < shape1 points)%nat ->
             nth k center 0%Q
             = (inject_Z (cell_coordinate self address k) * edge_length self
                + nth k (minimum_corner self) 0 + edge_length self * (1 # 2))%Q)
  /\ address_to_coordinate grid_filter [27%Z]
     = inr (mkCloud 2 [[12 # 4; 24 # 4]]%Q)
  /\ bind (address_to_coordinate grid_filter [27%Z])
          (coordinate_to_address grid_filter)
     = inl (ValueError "some points fall outside filter bounding region")
  /\ address_to_coordinate grid_filter [(2 ^ 40 + 19)%Z]
     = address_to_coordinate grid_filter [19%Z].
Proof.
  split; [|repeat split; reflexivity].
  intros points edge self address Hinit Ha.
  assert (Hr : (- 2 ^ 63 <= address < 2 ^ 63)%Z) by lia.
  destruct (init_shape _ _ _ Hinit)
    as [[Hd (m0 & m1 & M0 & M1 & w0 & w1 & -> & Hw)]
       |[Hd (m0 & m1 & m2 & M0 & M1 & M2 & w0 & w1 & w2 & -> & Hw)]];
    rewrite Hd; clear Hinit Hd; eexists.
  - rewrite (decode_planar m0 m1 M0 M1 edge w0 w1 address Hw Hr)
      by (left; lia).
    do 2 (split; [reflexivity|]). intros k Hk.
    destruct k as [|[|k]]; [reflexivity|reflexivity|lia].
  - rewrite (decode_spatial m0 m1 m2 M0 M1 M2 edge w0 w1 w2 address Hw Hr)
      by (left; lia).
    do 2 (split; [reflexivity|]). intros k Hk.
    destruct k as [|[|[|k]]]; [reflexivity|reflexivity|reflexivity|lia].
Qed.

Lemma decode_checks_nothing_witness :
  exists center,
    address_to_coordinate grid_filter [27%Z] = inr (mkCloud 2 [center])
    /\ length center = 2%nat
    /\ forall k, (k < 2)%nat ->
         nth k center 0%Q
         = (inject_Z (cell_coordinate grid_filter 27 k) * 1
            + nth k [-1 # 2; -1 # 2] 0 + 1 * (1 # 2))%Q.
Proof.
  apply (proj1 decode_checks_nothing grid_points 1 grid_filter 27%Z).
  - reflexivity.
  - lia.
Defined.

(** C10, as stated, fails on a non-negative integer: [2 ^ 63] does not fit
    an [np.int64], and [&] with the filter's [np.int64] mask raises. *)
Lemma decode_refuses_unsigned :
  init grid_points 1 = inr grid_filter
  /\ (0 <= 2 ^ 63)%Z
  /\ address_to_coordinate grid_filter [(2 ^ 63)%Z]
     = inl (TypeError "ufunc 'bitwise_and' not supported for the input types")
  /\ forall centers,
       address_to_coordinate grid_filter [(2 ^ 63)%Z] <> inr centers.
Proof.
  repeat split; try reflexivity; [lia | discriminate].
Qed.

(** *** The points of the construction cloud *)

Lemma init_corners (points : cloud) (edge : Q) (self : VoxelFilter) :
  init points edge = inr self ->
  exists lowest highest,
    min0 points = inr lowest /\ max0 points = inr highest
    /\ minimum_corner self = sub_scalar lowest (edge / 2)
    /\ maximum_corner self = add_scalar highest (edge / 2)
    /\ widths self
       = address_widths (minimum_corner self) (maximum_corner self) edge.
Proof.
  unfold init.
  destruct (negb _); [discriminate|].
  destruct (shape0 points <? 2)%nat; [discriminate|].
  destruct (min0 points) as [|lowest]; [discriminate|].
  destruct (max0 points) as [|highest]; [discriminate|].
  cbn [bind ret]. unfold calculate_shift.
  destruct (MAX_ADDRESS_LENGTH <? _)%Z; [discriminate|].
  cbn [bind ret fst snd].
  destruct (calculate_masks _ _) as [|ms]; [discriminate|].
  cbn [bind ret]. intros [= <-]. exists lowest, highest.
  repeat split; reflexivity.
Qed.

(** One axis of a point between the smallest and the largest coordinate of
    the cloud: it is in bounds, its cell fits the bit width, and the centre
    of its cell is in bounds as well. *)
Lemma extent_axis (l h x e : Q) :
  (0 < e)%Q -> (l <= x)%Q -> (x <= h)%Q ->
  let m := (l - e / 2)%Q in
  let M := (h + e / 2)%Q in
  let g := Qfloor ((x - m) / e) in
  Qltb x m = false /\ Qltb M x = false
  /\ (0 <= g < 2 ^ ceil_log2 ((M - m) / e))%Z
  /\ (inject_Z g * e + m + e * (1 # 2) <= M)%Q.
Proof.
  intros He Hl Hh m M g.
  assert (Hne : ~ (e == 0)%Q) by (intros H; rewrite H in He; lra).
  assert (Hhalf : (e / 2 == e * (1 # 2))%Q) by field.
  assert (Ht : ((x - m) / e * e == x - m)%Q) by (field; exact Hne).
  assert (Hs : ((M - m) / e == (h - l) / e + 1)%Q)
    by (unfold M, m; field; exact Hne).
  assert (Hpos : (0 <= (x - m) / e)%Q).
  { apply Qle_shift_div_l; [exact He|]. unfold m. lra. }
  assert (Hdpos : (0 <= (h - l) / e)%Q).
  { apply Qle_shift_div_l; [exact He|]. lra. }
  assert (Hlt : ((x - m) / e < (M - m) / e)%Q).
  { apply Qlt_shift_div_l; [exact He|]. rewrite Ht. unfold M, m. lra. }
  pose proof (Qfloor_le ((x - m) / e)) as Hfl. fold g in Hfl.
  destruct (ceil_log2_bounds ((M - m) / e)) as [Hup _].
  { rewrite Hs. lra. }
  repeat split.
  - apply Qltb_false_iff. unfold m. lra.
  - apply Qltb_false_iff. unfold M. lra.
  - unfold g. rewrite <- (Qfloor_Z 0). now apply Qfloor_resp_le.
  - rewrite Zlt_Qlt. eapply Qle_lt_trans; [exact Hfl|].
    eapply Qlt_le_trans; [exact Hlt | exact Hup].
  - assert (Hge : (inject_Z g * e <= (x - m) / e * e)%Q).
    { apply Qmult_le_compat_r; [exact Hfl | now apply Qlt_le_weak]. }
    rewrite Ht in Hge. unfold M, m in *. lra.
Qed.

End VoxelFacts.

(** * Further properties *)

(** ** The region filter, continued *)

Module RegionsMore.
Import Regions RegionsFacts.

Lemma rows_nonempty (a : cloud) : (0 < shape0 a)%nat -> rows a <> [].
Proof.
  unfold shape0. destruct (rows a); simpl; [lia | discriminate].
Qed.

Lemma filter_seq_ascending (f : nat -> bool) (n : nat) :
  forall a, StronglySorted lt (filter f (seq a n)).
Proof.
  induction n as [|n IH]; intros a; simpl; [constructor|].
  destruct (f a); [|apply IH].
  constructor; [apply IH|].
  apply Forall_forall. intros x Hx. apply filter_In in Hx.
  destruct Hx as [Hx _]. apply in_seq in Hx. lia.
Qed.

(** The loop of [region_indices] on a box of at most as many axes as the
    points have. *)
Lemma region_indices_leading (points : cloud) (low_side high_side : point) :
  rows points <> [] ->
  length low_side = length high_side ->
  (length low_side <= shape1 points)%nat ->
  region_indices points low_side high_side
  = inr (box_indices points low_side high_side).
Proof.
  intros Hne Hlen Hle. unfold region_indices.
  destruct (min0 points) as [e|lowest] eqn:Hlow.
  { unfold min0 in Hlow. destruct (rows points); [contradiction|discriminate]. }
  destruct (max0 points) as [e|highest] eqn:Hhigh.
  { unfold max0 in Hhigh. destruct (rows points); [contradiction|discriminate]. }
  cbn [bind].
  destruct (collect_masks_at points lowest highest Hlow Hhigh
              (combine low_side high_side) 0%nat [])
    as [masks [Hm Hat]].
  { rewrite length_combine. simpl. lia. }
  rewrite Hm. cbn [bind].
  assert (Hbox : forall i, (i < shape0 points)%nat ->
            forallb (fun m => nth i m false) masks
            = within_box low_side high_side (nth i (rows points) [])).
  { intros i Hi. rewrite (Hat i Hi). cbn [forallb andb].
    now rewrite sides_hold_combine by assumption. }
  unfold box_indices, ret. destruct masks as [|m ms]; f_equal.
  - symmetry. apply filter_all.
    intros i Hi. apply in_seq in Hi. rewrite <- Hbox by lia. reflexivity.
  - unfold nonzero, logical_and_reduce.
    rewrite length_map, length_seq.
    apply filter_ext_in. intros i Hi. apply in_seq in Hi.
    rewrite (nth_map_in _ _ _ 0%nat) by (rewrite length_seq; lia).
    rewrite seq_nth by lia. apply Hbox. lia.
Qed.

(** X1: the indices returned by [region_indices] are valid row numbers, in
    strictly increasing order. *)
Theorem region_indices_ascending (points : cloud) (low_side high_side : point)
    (indices : list nat) :
  region_indices points low_side high_side = inr indices ->
  StronglySorted lt indices
  /\ Forall (fun i => (i < shape0 points)%nat) indices.
Proof.
  unfold region_indices.
  destruct (min0 points) as [|lowest]; [discriminate|].
  destruct (max0 points) as [|highest]; [discriminate|].
  cbn [bind]. destruct (collect_masks _ _ _ _ _ _) as [|masks]; [discriminate|].
  cbn [bind]. destruct masks as [|m ms]; intros [= <-].
  - split.
    + rewrite <- (filter_all (fun _ => true) (seq 0 (shape0 points)))
        by reflexivity.
      apply filter_seq_ascending.
    + apply Forall_forall. intros i Hi. apply in_seq in Hi. lia.
  - unfold nonzero, logical_and_reduce. rewrite length_map, length_seq. split.
    + apply filter_seq_ascending.
    + apply Forall_forall. intros i Hi. apply filter_In in Hi.
      destruct Hi as [Hi _]. apply in_seq in Hi. lia.
Qed.

Lemma region_indices_ascending_witness :
  StronglySorted lt [0; 1]%nat
  /\ Forall (fun i => (i < 4)%nat) [0; 1]%nat.
Proof.
  apply (region_indices_ascending
           (cloud_of 2 [[0; 0]; [5; 5]; [10; 10]; [-3; -3]]%Q)
           [-2; -2]%Q [7; 7]%Q [0; 1]%nat).
  reflexivity.
Defined.

(** X2: a box with fewer axes than the points only constrains the leading
    axes: the other coordinates of a point are not looked at. *)
Theorem region_indices_leading_axes (points : cloud)
    (low_side high_side : point) (i : nat) :
  (0 < shape0 points)%nat ->
  length low_side = length high_side ->
  (length low_side <= shape1 points)%nat ->
  exists indices,
    region_indices points low_side high_side = inr indices
    /\ (In i indices
        <-> (i < shape0 points)%nat
            /\ forall k, (k < length low_side)%nat ->
                 (nth k low_side 0 <= nth k (nth i (rows points) []) 0
                  /\ nth k (nth i (rows points) []) 0 <= nth k high_side 0)%Q).
Proof.
  intros Hn Hlen Hle. exists (box_indices points low_side high_side). split.
  - apply region_indices_leading; auto using rows_nonempty.
  - apply RegionFilter.box_indices_iff.
Qed.

Lemma region_indices_leading_axes_witness :
  exists indices,
    region_indices (cloud_of 2 [[0; 9]; [5; -9]; [10; 0]]%Q) [0]%Q [5]%Q
    = inr indices
    /\ (In 1%nat indices
        <-> (1 < 3)%nat
            /\ forall k, (k < 1)%nat ->
                 (nth k [0] 0 <= nth k [5; -9] 0
                  /\ nth k [5; -9] 0 <= nth k [5] 0)%Q).
Proof.
  apply (region_indices_leading_axes
           (cloud_of 2 [[0; 9]; [5; -9]; [10; 0]]%Q) [0]%Q [5]%Q 1%nat).
  - vm_compute. lia.
  - reflexivity.
  - simpl. lia.
Defined.

Lemma collect_masks_overrun (points : cloud) (lowest highest : point)
    (sides : list (Q * Q)) :
  forall dimension all_masks,
    (dimension <= shape1 points)%nat ->
    (shape1 points < dimension + length sides)%nat ->
    collect_masks points lowest highest dimension sides all_masks
    = inl out_of_bounds.
Proof.
  induction sides as [|[lo hi] rest IH]; intros dimension all_masks Hd Hlen;
    simpl in *; [lia|].
  destruct (Nat.leb_spec (shape1 points) dimension) as [Hge|Hlt];
    [reflexivity|].
  apply IH; lia.
Qed.

(** X3: a box with more axes than the points makes [region_indices] raise
    the [IndexError] of [points[:, dimension]], whatever the coordinates. *)
Theorem region_indices_too_many_axes (points : cloud)
    (low_side high_side : point) :
  (0 < shape0 points)%nat ->
  (shape1 points < length low_side)%nat ->
  (shape1 points < length high_side)%nat ->
  region_indices points low_side high_side = inl out_of_bounds.
Proof.
  intros Hn Hl Hh. unfold region_indices, min0, max0.
  destruct (rows points) eqn:E; [apply rows_nonempty in Hn; contradiction|].
  cbn [bind ret].
  rewrite collect_masks_overrun; [reflexivity | lia |].
  rewrite length_combine. lia.
Qed.

Lemma region_indices_too_many_axes_witness :
  region_indices (cloud_of 2 [[0; 0]; [1; 1]]%Q) [0; 0; 0]%Q [1; 1; 1]%Q
  = inl out_of_bounds.
Proof.
  apply (region_indices_too_many_axes (cloud_of 2 [[0; 0]; [1; 1]]%Q)
           [0; 0; 0]%Q [1; 1; 1]%Q); vm_compute; lia.
Defined.

Lemma nested_regions_leading (query_set search_space : cloud)
    (buffer_radius : Q) (minimum_corner maximum_corner : point) :
  (0 < shape0 query_set)%nat -> (0 < shape0 search_space)%nat ->
  length minimum_corner = length maximum_corner ->
  (length minimum_corner <= shape1 query_set)%nat ->
  (length minimum_corner <= shape1 search_space)%nat ->
  nested_regions query_set search_space buffer_radius
                 minimum_corner maximum_corner
  = inr (box_indices query_set minimum_corner maximum_corner,
         box_indices search_space (sub_scalar minimum_corner buffer_radius)
                     (add_scalar maximum_corner buffer_radius)).
Proof.
  intros Hq Hs Hlen Hdq Hds. unfold nested_regions.
  rewrite region_indices_leading by auto using rows_nonempty.
  cbn [bind].
  rewrite region_indices_leading; [reflexivity | auto using rows_nonempty | |];
    unfold sub_scalar, add_scalar; rewrite !length_map; assumption.
Qed.

(** X4: a larger buffer radius leaves the query indices as they are and can
    only add search indices. *)
Theorem buffer_radius_monotone (query_set search_space : cloud)
    (small large : Q) (minimum_corner maximum_corner : point) :
  (0 < shape0 query_set)%nat -> (0 < shape0 search_space)%nat ->
  length minimum_corner = length maximum_corner ->
  (length minimum_corner <= shape1 query_set)%nat ->
  (length minimum_corner <= shape1 search_space)%nat ->
  (small <= large)%Q ->
  exists query_indices search_small search_large,
    nested_regions query_set search_space small minimum_corner maximum_corner
    = inr (query_indices, search_small)
    /\ nested_regions query_set search_space large
                      minimum_corner maximum_corner
       = inr (query_indices, search_large)
    /\ incl search_small search_large.
Proof.
  intros Hq Hs Hlen Hdq Hds Hle.
  do 3 eexists. split; [|split].
  - now apply nested_regions_leading.
  - now apply nested_regions_leading.
  - intros i. rewrite !RegionFilter.buffered_box_indices_iff by congruence.
    intros [Hi H]. split; [exact Hi|]. intros k Hk.
    destruct (H k Hk) as [H1 H2]. split; lra.
Qed.

Lemma buffer_radius_monotone_witness :
  exists query_indices search_small search_large,
    nested_regions (cloud_of 2 [[0; 0]; [5; 5]; [10; 10]]%Q)
                   (cloud_of 2 [[0; 0]; [5; 5]; [10; 10]; [-3; -3]]%Q)
                   2 [0; 0]%Q [5; 5]%Q
    = inr (query_indices, search_small)
    /\ nested_regions (cloud_of 2 [[0; 0]; [5; 5]; [10; 10]]%Q)
                      (cloud_of 2 [[0; 0]; [5; 5]; [10; 10]; [-3; -3]]%Q)
                      3 [0; 0]%Q [5; 5]%Q
       = inr (query_indices, search_large)
    /\ incl search_small search_large.
Proof.
  apply (buffer_radius_monotone
           (cloud_of 2 [[0; 0]; [5; 5]; [10; 10]]%Q)
           (cloud_of 2 [[0; 0]; [5; 5]; [10; 10]; [-3; -3]]%Q)
           2 3 [0; 0]%Q [5; 5]%Q);
    try (vm_compute; lia); try reflexivity.
  vm_compute. discriminate.
Defined.

(** X5: when one cloud is both query set and search space and the buffer
    radius is not negative, every query index is a search index too. *)
Theorem query_indices_among_search (points : cloud) (buffer_radius : Q)
    (minimum_corner maximum_corner : point) :
  (0 < shape0 points)%nat ->
  length minimum_corner = length maximum_corner ->
  (length minimum_corner <= shape1 points)%nat ->
  (0 <= buffer_radius)%Q ->
  exists query_indices search_indices,
    nested_regions points points buffer_radius minimum_corner maximum_corner
    = inr (query_indices, search_indices)
    /\ incl query_indices search_indices.
Proof.
  intros Hn Hlen Hd Hr. do 2 eexists. split.
  - now apply nested_regions_leading.
  - intros i. rewrite RegionFilter.box_indices_iff.
    rewrite RegionFilter.buffered_box_indices_iff by congruence.
    intros [Hi H]. split; [exact Hi|]. intros k Hk.
    destruct (H k Hk) as [H1 H2]. split; lra.
Qed.

Lemma query_indices_among_search_witness :
  exists query_indices search_indices,
    nested_regions (cloud_of 2 [[0; 0]; [5; 5]; [10; 10]]%Q)
                   (cloud_of 2 [[0; 0]; [5; 5]; [10; 10]]%Q)
                   0 [0; 0]%Q [5; 5]%Q
    = inr (query_indices, search_indices)
    /\ incl query_indices search_indices.
Proof.
  apply (query_indices_among_search
           (cloud_of 2 [[0; 0]; [5; 5]; [10; 10]]%Q) 0 [0; 0]%Q [5; 5]%Q);
    try (vm_compute; lia); try reflexivity.
  vm_compute. discriminate.
Defined.

End RegionsMore.

(** ** The octree partitioner, continued *)

Module OctreeMore.
Import Regions Octree OctreeFacts.

(** X6: a [NestedOctree] is constructed exactly when both clouds are
    three-dimensional with at least two points and the buffer radius is
    strictly positive; a radius of zero is refused. *)
Theorem octree_constructed_iff (query_set0 search_space0 : cloud)
    (buffer_radius0 : Q) :
  (exists self, init query_set0 search_space0 buffer_radius0 = inr self)
  <-> (shape1 query_set0 = 3%nat /\ (2 <= shape0 query_set0)%nat
       /\ shape1 search_space0 = 3%nat /\ (2 <= shape0 search_space0)%nat
       /\ (0 < buffer_radius0)%Q).
Proof.
  unfold init, validate_input. split.
  - intros [self H].
    destruct (Nat.eqb_spec (shape1 query_set0) 3); [|discriminate].
    destruct (Nat.ltb_spec (shape0 query_set0) 2); [discriminate|].
    destruct (Nat.eqb_spec (shape1 search_space0) 3); [|discriminate].
    destruct (Nat.ltb_spec (shape0 search_space0) 2); [discriminate|].
    cbn [negb bind ret] in H.
    destruct (Qle_bool buffer_radius0 0) eqn:E; [discriminate|].
    apply Qle_bool_false in E. auto.
  - intros (Hq3 & Hqn & Hs3 & Hsn & Hr).
    apply Nat.eqb_eq in Hq3, Hs3. rewrite Hq3, Hs3.
    apply Nat.ltb_ge in Hqn as Hq. apply Nat.ltb_ge in Hsn as Hs.
    rewrite Hq, Hs. cbn [negb bind ret].
    destruct (Qle_bool buffer_radius0 0) eqn:E.
    { apply Qle_bool_iff in E. lra. }
    unfold max0, min0, shape0 in *.
    destruct (rows query_set0); [simpl in Hqn; lia|].
    cbn [bind ret]. eexists. reflexivity.
Qed.

Lemma octree_constructed_iff_witness :
  ~ exists self, init two_corners two_corners 0 = inr self.
Proof.
  intros H.
  apply (proj1 (octree_constructed_iff two_corners two_corners 0)) in H.
  destruct H as (_ & _ & _ & _ & H). vm_compute in H. discriminate.
Defined.

Lemma partition_generator_app (self : NestedOctree) (cs : list cube) :
  partition_generator (set_cubes self (cubes self ++ cs))
  = partition_generator self
    ++ flat_map (fun c => match c with
                          | Indices this_cube => [this_cube]
                          | Child tree => partition_generator tree
                          end) cs.
Proof.
  rewrite !partition_generator_cubes, cubes_set_cubes. apply flat_map_app.
Qed.

(** X7: [partition] never resets [cubes].  On any node, whatever it already
    holds, a call whose local search population is within the cap adds the
    local index pair after what the generator yielded before, and a call
    over the cap changes nothing; the other fields are kept. *)
Theorem partition_appends (self : NestedOctree) (max_population : Z)
    (minimum_factor : Q) (query_indices search_indices : list nat) :
  nested_regions (query_set self) (search_space self) (buffer_radius self)
                 (minimum_corner self) (maximum_corner self)
  = inr (query_indices, search_indices) ->
  exists node,
    partition self max_population minimum_factor = inr node
    /\ nested_regions (query_set node) (search_space node) (buffer_radius node)
                      (minimum_corner node) (maximum_corner node)
       = inr (query_indices, search_indices)
    /\ partition_generator node
       = partition_generator self
         ++ (if (Z.of_nat (length search_indices) <=? max_population)%Z
             then [(query_indices, search_indices)] else []).
Proof.
  intros Hlocal. unfold partition. rewrite Hlocal. cbn [bind snd].
  destruct (Z.of_nat (length search_indices) <=? max_population)%Z.
  - eexists. split; [reflexivity|]. split.
    + destruct self; exact Hlocal.
    + apply partition_generator_app.
  - exists self. split; [reflexivity|]. split; [exact Hlocal|].
    now rewrite app_nil_r.
Qed.

Lemma partition_appends_witness :
  exists node,
    partition corner_node 2 3 = inr node
    /\ nested_regions (query_set node) (search_space node) (buffer_radius node)
                      (minimum_corner node) (maximum_corner node)
       = inr ([0; 1]%nat, [0; 1]%nat)
    /\ partition_generator node
       = partition_generator corner_node ++ [([0; 1]%nat, [0; 1]%nat)].
Proof.
  apply (partition_appends corner_node 2 3 [0; 1]%nat [0; 1]%nat).
  vm_compute. reflexivity.
Defined.

(** X8: on a constructed node, [partition] followed by the generator gives
    one pair, all the query indices with the search indices of the buffered
    bounding box, when those are within the cap, and nothing otherwise. *)
Theorem partition_generator_outcome (query_set0 search_space0 : cloud)
    (buffer_radius0 : Q) (self : NestedOctree) (max_population : Z)
    (minimum_factor : Q) :
  init query_set0 search_space0 buffer_radius0 = inr self ->
  let search_indices :=
    box_indices search_space0
      (sub_scalar (minimum_corner self) buffer_radius0)
      (add_scalar (maximum_corner self) buffer_radius0) in
  exists node,
    partition self max_population minimum_factor = inr node
    /\ partition_generator node
       = if (Z.of_nat (length search_indices) <=? max_population)%Z
         then [(seq 0 (shape0 query_set0), search_indices)]
         else [].
Proof.
  intros Hinit search_indices.
  destruct (init_fields _ _ _ _ Hinit) as (_ & _ & _ & _ & _ & Hfresh & _).
  unfold partition.
  rewrite (local_indices_of_init _ _ _ _ Hinit). cbn [bind snd].
  fold search_indices.
  destruct (Z.of_nat (length search_indices) <=? max_population)%Z;
    eexists; (split; [reflexivity|]);
    rewrite partition_generator_cubes.
  - rewrite cubes_set_cubes, Hfresh. reflexivity.
  - rewrite Hfresh. reflexivity.
Qed.

Lemma partition_generator_outcome_witness :
  exists node,
    partition corner_node 1 3 = inr node
    /\ partition_generator node
       = if (Z.of_nat (length (box_indices two_corners
                                 (sub_scalar (minimum_corner corner_node) 1)
                                 (add_scalar (maximum_corner corner_node) 1)))
             <=? 1)%Z
         then [(seq 0 (shape0 two_corners),
                box_indices two_corners
                  (sub_scalar (minimum_corner corner_node) 1)
                  (add_scalar (maximum_corner corner_node) 1))]
         else [].
Proof.
  apply (partition_generator_outcome two_corners two_corners 1 corner_node 1 3).
  reflexivity.
Defined.

Lemma exhaust_map {A B : Type} (step : A -> result B) (f : A -> B)
    (xs : list A) :
  (forall x, In x xs -> step x = inr (f x)) ->
  exhaust step xs = inr (map f xs).
Proof.
  induction xs as [|x xs IH]; intros H; simpl; [reflexivity|].
  rewrite (H x) by now left. cbn [bind].
  rewrite IH by (intros y Hy; apply H; now right). reflexivity.
Qed.

Lemma combine_map_self {A B : Type} (f : A -> B) (h : B -> B) (l : list A) :
  combine (map f l) (map h (map f l)) = map (fun x => (f x, h (f x))) l.
Proof.
  induction l as [|a l IH]; simpl; [reflexivity|]. now rewrite IH.
Qed.

Lemma corners_of_centers (self : NestedOctree) (edge : Q) :
  combine (known_min_corners self edge) (known_max_corners self edge)
  = map (octant_corners self edge) cube_centers.
Proof.
  unfold known_max_corners, known_min_corners. apply combine_map_self.
Qed.

Lemma take_rows_incl (a : cloud) (index : list nat) :
  Forall (fun i => (i < shape0 a)%nat) index ->
  incl (rows (take a index)) (rows a).
Proof.
  intros H r Hr. simpl in Hr. apply in_map_iff in Hr.
  destruct Hr as (i & <- & Hi).
  apply nth_In. rewrite Forall_forall in H. now apply H.
Qed.

Lemma box_indices_in_range (a : cloud) (low high : point) :
  Forall (fun i => (i < shape0 a)%nat) (box_indices a low high).
Proof.
  apply Forall_forall. intros i Hi. unfold box_indices in Hi.
  apply filter_In in Hi. destruct Hi as [Hi _]. apply in_seq in Hi. lia.
Qed.

(** X9: on a constructed node the naive cube generator never raises,
    whatever the cube edge, and yields eight octants.  Each octant holds
    rows of the query set and rows of the search space, taken at strictly
    increasing row numbers: in the order of the input, and no row twice. *)
Theorem naive_octants_rows (query_set0 search_space0 : cloud)
    (buffer_radius0 : Q) (self : NestedOctree) (edge : Q) :
  init query_set0 search_space0 buffer_radius0 = inr self ->
  exists octants,
    naive_cube_generator self edge = inr octants
    /\ length octants = 8%nat
    /\ forall o, In o octants ->
         incl (rows (fst o)) (rows query_set0)
         /\ incl (rows (snd o)) (rows search_space0)
         /\ exists query_index search_index,
              o = (take query_set0 query_index,
                   take search_space0 search_index)
              /\ StronglySorted lt query_index
              /\ StronglySorted lt search_index.
Proof.
  intros Hinit.
  destruct (init_fields _ _ _ _ Hinit)
    as (Eq & Es & Er & Hmax & Hmin & _ & Hq3 & Hs3 & Hqn & Hsn).
  pose proof (min0_length _ _ Hmin) as Lmin.
  pose proof (max0_length _ _ Hmax) as Lmax.
  rewrite Hq3 in Lmin, Lmax.
  set (f := fun corners : point * point =>
              (take query_set0
                    (box_indices query_set0 (fst corners) (snd corners)),
               take search_space0
                    (box_indices search_space0
                       (sub_scalar (fst corners) buffer_radius0)
                       (add_scalar (snd corners) buffer_radius0)))).
  assert (Hlen : forall center, length center = 3%nat ->
            length (fst (octant_corners self edge center)) = 3%nat
            /\ length (snd (octant_corners self edge center)) = 3%nat).
  { intros center Hc. unfold octant_corners, add_scalar, zip_with. cbn [fst snd].
    rewrite !length_map, length_combine, length_map. lia. }
  assert (Hcenters : forall center, In center cube_centers ->
            length center = 3%nat).
  { intros center Hc. simpl in Hc.
    repeat (destruct Hc as [<-|Hc]; [reflexivity|]). contradiction. }
  exists (map f (map (octant_corners self edge) cube_centers)).
  split; [|split].
  - unfold naive_cube_generator. rewrite corners_of_centers, Eq, Es, Er.
    apply exhaust_map. intros corners Hc. apply in_map_iff in Hc.
    destruct Hc as (center & <- & Hc).
    destruct (Hlen center (Hcenters center Hc)) as [L1 L2].
    rewrite RegionsMore.nested_regions_leading by (lia || congruence).
    reflexivity.
  - rewrite !length_map. reflexivity.
  - intros o Ho. apply in_map_iff in Ho. destruct Ho as (corners & <- & _).
    split; [|split]; try apply take_rows_incl, box_indices_in_range.
    do 2 eexists. split; [reflexivity|].
    split; apply RegionsMore.filter_seq_ascending.
Qed.

Lemma naive_octants_rows_witness :
  exists octants,
    naive_cube_generator corner_node (3 # 10) = inr octants
    /\ length octants = 8%nat
    /\ forall o, In o octants ->
         incl (rows (fst o)) (rows two_corners)
         /\ incl (rows (snd o)) (rows two_corners)
         /\ exists query_index search_index,
              o = (take two_corners query_index,
                   take two_corners search_index)
              /\ StronglySorted lt query_index
              /\ StronglySorted lt search_index.
Proof.
  apply (naive_octants_rows two_corners two_corners 1 corner_node (3 # 10)).
  reflexivity.
Defined.

End OctreeMore.

(** ** The voxel filter, continued *)

Module VoxelMore.
Import Voxel VoxelFacts.

(** What encoding does to a point between the smallest and the largest
    coordinates of the construction cloud. *)
Lemma extent_encoding (points : cloud) (edge : Q) (self : VoxelFilter)
    (lowest highest p : point) :
  init points edge = inr self ->
  (0 < edge)%Q ->
  min0 points = inr lowest ->
  max0 points = inr highest ->
  length p = shape1 points ->
  (forall k, (k < shape1 points)%nat ->
     (nth k lowest 0 <= nth k p 0 /\ nth k p 0 <= nth k highest 0)%Q) ->
  let G := grid_coordinates self p in
  let address := sum64 (on_tail shl64 G (shifts self)) in
  voxel_coordinates self p = G
  /\ coordinate_to_address self (mkCloud (shape1 points) [p]) = inr [address]
  /\ map (cell_coordinate self address) (seq 0 (length (widths self))) = G
  /\ Forall2 (fun g w => (0 <= g < 2 ^ w)%Z) G (widths self)
  /\ (address mod 2 ^ 64 = packed self G mod 2 ^ 64)%Z
  /\ (0 <= packed self G < 2 ^ zsum (widths self))%Z
  /\ G <> [].
Proof.
  intros Hinit He Hmin Hmax Hlen Hext.
  destruct (init_corners _ _ _ Hinit) as (lo & hi & Hlo & Hhi & Hm & HM & Hw).
  rewrite Hmin in Hlo. rewrite Hmax in Hhi.
  injection Hlo as <-. injection Hhi as <-.
  destruct (init_shape _ _ _ Hinit)
    as [[Hd (m0 & m1 & M0 & M1 & w0 & w1 & -> & Hw0 & Hw1 & Hsum)]
       |[Hd (m0 & m1 & m2 & M0 & M1 & M2 & w0 & w1 & w2 & ->
             & Hw0 & Hw1 & Hw2 & Hsum)]];
    rewrite Hd in *; clear Hinit Hd Hmin Hmax.
  - destruct p as [|x0 [|x1 [|x2 p]]]; try discriminate Hlen. clear Hlen.
    destruct lowest as [|l0 [|l1 [|l2 lowest]]]; try discriminate Hm.
    destruct highest as [|h0 [|h1 [|h2 highest]]]; try discriminate HM.
    cbv [minimum_corner maximum_corner widths address_widths zip_with
         sub_scalar add_scalar] in Hm, HM, Hw.
    cbn [map combine fst snd] in Hm, HM, Hw.
    injection Hm as -> ->. injection HM as -> ->. injection Hw as E0 E1.
    destruct (Hext 0%nat ltac:(lia)) as [L0 U0].
    destruct (Hext 1%nat ltac:(lia)) as [L1 U1]. cbn [nth] in *.
    destruct (extent_axis l0 h0 x0 edge He L0 U0) as (A0 & B0 & G0 & C0).
    destruct (extent_axis l1 h1 x1 edge He L1 U1) as (A1 & B1 & G1 & C1).
    rewrite <- E0 in G0. rewrite <- E1 in G1. clear E0 E1 Hext.
    cbv [grid_coordinates packed axis_shifts coordinate_to_address
         check_in_bounds min0 max0 rows shape1 shifts minimum_corner
         maximum_corner edge_length widths masks any_lt column reduce
         voxel_coordinates zip_with cell_coordinate zsum].
    cbn [length Nat.add Nat.eqb negb seq map bind ret combine existsb fst snd
         nth fold_left orb on_tail with_shifts].
    rewrite A0, A1, B0, B1.
    cbn [orb bind ret map rows combine fst snd on_tail with_shifts].
    rewrite (coordinate_small _ w0 G0), (coordinate_small _ w1 G1) by lia.
    set (g0 := Qfloor ((x0 - (l0 - edge / 2)) / edge)) in *.
    set (g1 := Qfloor ((x1 - (l1 - edge / 2)) / edge)) in *.
    destruct (planar_cells g0 g1 w0 w1) as [F0 F1]; try assumption.
    cbv zeta in F0, F1.
    assert (Hp : (2 ^ (w0 + w1) = 2 ^ w0 * 2 ^ w1)%Z)
      by (apply Z.pow_add_r; lia).
    repeat split; try (reflexivity || lia || assumption).
    + now rewrite F0, F1.
    + repeat (apply Forall2_cons; [assumption|]). constructor.
    + rewrite planar_address by lia. f_equal. rewrite Z.pow_0_r. ring.
    + cbn [Z.add]. rewrite Z.pow_0_r, Hp. nia.
    + discriminate.
  - destruct p as [|x0 [|x1 [|x2 [|x3 p]]]]; try discriminate Hlen.
    clear Hlen.
    destruct lowest as [|l0 [|l1 [|l2 [|l3 lowest]]]]; try discriminate Hm.
    destruct highest as [|h0 [|h1 [|h2 [|h3 highest]]]]; try discriminate HM.
    cbv [minimum_corner maximum_corner widths address_widths zip_with
         sub_scalar add_scalar] in Hm, HM, Hw.
    cbn [map combine fst snd] in Hm, HM, Hw.
    injection Hm as -> -> ->. injection HM as -> -> ->.
    injection Hw as E0 E1 E2.
    destruct (Hext 0%nat ltac:(lia)) as [L0 U0].
    destruct (Hext 1%nat ltac:(lia)) as [L1 U1].
    destruct (Hext 2%nat ltac:(lia)) as [L2 U2]. cbn [nth] in *.
    destruct (extent_axis l0 h0 x0 edge He L0 U0) as (A0 & B0 & G0 & C0).
    destruct (extent_axis l1 h1 x1 edge He L1 U1) as (A1 & B1 & G1 & C1).
    destruct (extent_axis l2 h2 x2 edge He L2 U2) as (A2 & B2 & G2 & C2).
    rewrite <- E0 in G0. rewrite <- E1 in G1. rewrite <- E2 in G2.
    clear E0 E1 E2 Hext.
    cbv [grid_coordinates packed axis_shifts coordinate_to_address
         check_in_bounds min0 max0 rows shape1 shifts minimum_corner
         maximum_corner edge_length widths masks any_lt column reduce
         voxel_coordinates zip_with cell_coordinate zsum].
    cbn [length Nat.add Nat.eqb negb seq map bind ret combine existsb fst snd
         nth fold_left orb on_tail with_shifts].
    rewrite A0, A1, A2, B0, B1, B2.
    cbn [orb bind ret map rows combine fst snd on_tail with_shifts].
    rewrite (coordinate_small _ w0 G0), (coordinate_small _ w1 G1),
      (coordinate_small _ w2 G2) by lia.
    set (g0 := Qfloor ((x0 - (l0 - edge / 2)) / edge)) in *.
    set (g1 := Qfloor ((x1 - (l1 - edge / 2)) / edge)) in *.
    set (g2 := Qfloor ((x2 - (l2 - edge / 2)) / edge)) in *.
    destruct (spatial_cells g0 g1 g2 w0 w1 w2) as (F0 & F1 & F2);
      try assumption.
    cbv zeta in F0, F1, F2.
    assert (Hp : (2 ^ (w0 + w1) = 2 ^ w0 * 2 ^ w1)%Z)
      by (apply Z.pow_add_r; lia).
    assert (Hp' : (2 ^ (w0 + w1 + w2) = 2 ^ w0 * 2 ^ w1 * 2 ^ w2)%Z)
      by (rewrite Z.pow_add_r, Hp by lia; reflexivity).
    repeat split; try (reflexivity || lia || assumption).
    + now rewrite F0, F1, F2.
    + repeat (apply Forall2_cons; [assumption|]). constructor.
    + rewrite spatial_address by lia. f_equal. rewrite Z.pow_0_r. ring.
    + cbn [Z.add]. rewrite Z.pow_0_r, Hp, Hp'.
      assert (0 < 2 ^ w0 /\ 0 < 2 ^ w1 /\ 0 < 2 ^ w2)%Z as (P0 & P1 & P2)
        by (repeat split; apply Z.pow_pos_nonneg; lia).
      assert (g0 + g1 * 2 ^ w0 < 2 ^ w0 * 2 ^ w1)%Z by nia.
      nia.
    + discriminate.
Qed.

Lemma init_dimensions (points : cloud) (edge : Q) (self : VoxelFilter) :
  init points edge = inr self ->
  edge_length self = edge
  /\ length (minimum_corner self) = shape1 points
  /\ length (maximum_corner self) = shape1 points
  /\ length (widths self) = shape1 points
  /\ length (masks self) = shape1 points
  /\ (length (shifts self) + 1 = shape1 points)%nat
  /\ Forall (fun w => (1 <= w)%Z) (widths self)
  /\ (zsum (widths self) <= 64)%Z.
Proof.
  intros Hinit.
  destruct (init_shape _ _ _ Hinit)
    as [[Hd (m0 & m1 & M0 & M1 & w0 & w1 & -> & Hw0 & Hw1 & Hsum)]
       |[Hd (m0 & m1 & m2 & M0 & M1 & M2 & w0 & w1 & w2 & ->
             & Hw0 & Hw1 & Hw2 & Hsum)]];
    rewrite Hd; cbn [edge_length minimum_corner maximum_corner widths masks
                     shifts length Nat.add];
    repeat split; try reflexivity;
    try (repeat (apply Forall_cons; [assumption|]); constructor);
    unfold zsum; cbn [fold_left Z.add]; lia.
Qed.

(** X11: two points between the smallest and the largest coordinates of the
    construction cloud get the same address exactly when they have the same
    grid coordinates: distinct cells never share an address. *)
Theorem same_address_iff_same_cell (points : cloud) (edge : Q)
    (self : VoxelFilter) (lowest highest p q : point) :
  init points edge = inr self ->
  (0 < edge)%Q ->
  min0 points = inr lowest ->
  max0 points = inr highest ->
  length p = shape1 points ->
  length q = shape1 points ->
  (forall k, (k < shape1 points)%nat ->
     (nth k lowest 0 <= nth k p 0 /\ nth k p 0 <= nth k highest 0)%Q) ->
  (forall k, (k < shape1 points)%nat ->
     (nth k lowest 0 <= nth k q 0 /\ nth k q 0 <= nth k highest 0)%Q) ->
  exists a b,
    coordinate_to_address self (mkCloud (shape1 points) [p]) = inr [a]
    /\ coordinate_to_address self (mkCloud (shape1 points) [q]) = inr [b]
    /\ (a = b <-> grid_coordinates self p = grid_coordinates self q).
Proof.
  intros Hinit He Hmin Hmax Lp Lq Hp Hq.
  destruct (extent_encoding _ _ _ _ _ _ Hinit He Hmin Hmax Lp Hp)
    as (_ & Ha & Fa & _).
  destruct (extent_encoding _ _ _ _ _ _ Hinit He Hmin Hmax Lq Hq)
    as (_ & Hb & Fb & _).
  do 2 eexists. split; [exact Ha|]. split; [exact Hb|]. split.
  - intros Hab. rewrite <- Fa, <- Fb, Hab. reflexivity.
  - intros HG. now rewrite HG.
Qed.

Lemma same_address_iff_same_cell_witness :
  exists a b,
    coordinate_to_address grid_filter (mkCloud 2 [[3 # 2; 5 # 2]]%Q) = inr [a]
    /\ coordinate_to_address grid_filter (mkCloud 2 [[7 # 4; 9 # 4]]%Q)
       = inr [b]
    /\ (a = b <-> grid_coordinates grid_filter [3 # 2; 5 # 2]%Q
                  = grid_coordinates grid_filter [7 # 4; 9 # 4]%Q).
Proof.
  apply (same_address_iff_same_cell grid_points 1 grid_filter [0; 0]%Q
           [3; 4]%Q [3 # 2; 5 # 2]%Q [7 # 4; 9 # 4]%Q); try reflexivity;
    intros [|[|k]] Hk; simpl in *; try lia; split; discriminate.
Defined.

(** X12: when the bit widths add up to at most 63, the address of such a
    point is the sum of its grid coordinates, each multiplied by two to the
    shift of its axis, and it lies below two to the total width: nothing
    wraps around in the 64-bit arithmetic. *)
Theorem address_is_packed (points : cloud) (edge : Q)
    (self : VoxelFilter) (lowest highest p : point) :
  init points edge = inr self ->
  (0 < edge)%Q ->
  min0 points = inr lowest ->
  max0 points = inr highest ->
  length p = shape1 points ->
  (forall k, (k < shape1 points)%nat ->
     (nth k lowest 0 <= nth k p 0 /\ nth k p 0 <= nth k highest 0)%Q) ->
  (zsum (widths self) <= 63)%Z ->
  exists address,
    coordinate_to_address self (mkCloud (shape1 points) [p]) = inr [address]
    /\ address = packed self (grid_coordinates self p)
    /\ (0 <= address < 2 ^ zsum (widths self))%Z.
Proof.
  intros Hinit He Hmin Hmax Hlen Hext Hsum.
  destruct (extent_encoding _ _ _ _ _ _ Hinit He Hmin Hmax Hlen Hext)
    as (_ & Henc & _ & _ & Hmod & Hrange & Hne).
  eexists. split; [exact Henc|].
  assert (Hpow : (2 ^ zsum (widths self) <= 2 ^ 63)%Z)
    by (apply Z.pow_le_mono_r; lia).
  assert (Heq : sum64 (on_tail shl64 (grid_coordinates self p) (shifts self))
                = packed self (grid_coordinates self p)).
  { apply congruent_small; [|lia|exact Hmod].
    apply sum64_range.
    destruct (grid_coordinates self p); [contradiction|discriminate]. }
  rewrite Heq. split; [reflexivity | exact Hrange].
Qed.

Lemma address_is_packed_witness :
  exists address,
    coordinate_to_address grid_filter (mkCloud 2 [[3 # 2; 5 # 2]]%Q)
    = inr [address]
    /\ address = packed grid_filter
                   (grid_coordinates grid_filter [3 # 2; 5 # 2]%Q)
    /\ (0 <= address < 2 ^ zsum (widths grid_filter))%Z.
Proof.
  apply (address_is_packed grid_points 1 grid_filter [0; 0]%Q
           [3; 4]%Q [3 # 2; 5 # 2]%Q); try reflexivity.
  - intros [|[|k]] Hk; simpl in *; try lia; split; discriminate.
  - vm_compute. discriminate.
Defined.

Lemma field_low_bits (a n s w : Z) :
  (0 <= s)%Z -> (0 <= w)%Z -> (s + w <= n)%Z ->
  (((a mod 2 ^ n) / 2 ^ s) mod 2 ^ w = (a / 2 ^ s) mod 2 ^ w)%Z.
Proof.
  intros Hs Hw Hn. apply Z.bits_inj'. intros i Hi.
  rewrite !field_testbit by assumption.
  destruct (Z.ltb_spec i w) as [Hlt|Hge]; [|reflexivity]. cbn [andb].
  apply Z.mod_pow2_bits_low. lia.
Qed.

(** X13: decoding an [np.int64] address only reads the bits below the total
    width: the address and its remainder modulo two to the sum of the widths
    decode to the same point, so bits above the masks are dropped without
    any error.  With widths that add up to 64 the highest field of a
    negative address is read with its sign, and the address is taken
    non-negative. *)
Theorem decode_reads_low_bits (points : cloud) (edge : Q)
    (self : VoxelFilter) (address : Z) :
  init points edge = inr self ->
  (- 2 ^ 63 <= address < 2 ^ 63)%Z ->
  (0 <= address \/ zsum (widths self) <= 63)%Z ->
  exists centers,
    address_to_coordinate self [address] = inr centers
    /\ address_to_coordinate self [(address mod 2 ^ zsum (widths self))%Z]
       = inr centers.
Proof.
  intros Hinit Hr Ha.
  destruct (init_shape _ _ _ Hinit)
    as [[Hd (m0 & m1 & M0 & M1 & w0 & w1 & -> & Hw)]
       |[Hd (m0 & m1 & m2 & M0 & M1 & M2 & w0 & w1 & w2 & -> & Hw)]];
    cbv [widths zsum] in *; cbn [fold_left Z.add] in *; eexists;
    (split; [|symmetry]).
  - apply decode_planar; assumption.
  - destruct Hw as (Hw0 & Hw1 & Hsum).
    assert (Hp : (0 < 2 ^ (w0 + w1) <= 2 ^ 64)%Z)
      by (split; [apply Z.pow_pos_nonneg | apply Z.pow_le_mono_r]; lia).
    pose proof (Z.mod_pos_bound address (2 ^ (w0 + w1)) ltac:(lia)) as Hm.
    assert (Hr' : (- 2 ^ 63 <= address mod 2 ^ (w0 + w1) < 2 ^ 63)%Z).
    { destruct Ha as [Ha|Ha].
      - pose proof (Z.mod_le address (2 ^ (w0 + w1)) ltac:(lia) ltac:(lia)).
        lia.
      - assert (2 ^ (w0 + w1) <= 2 ^ 63)%Z by (apply Z.pow_le_mono_r; lia).
        lia. }
    rewrite decode_planar by (repeat split; lia).
    now rewrite !field_low_bits by lia.
  - apply decode_spatial; assumption.
  - destruct Hw as (Hw0 & Hw1 & Hw2 & Hsum).
    assert (Hp : (0 < 2 ^ (w0 + w1 + w2) <= 2 ^ 64)%Z)
      by (split; [apply Z.pow_pos_nonneg | apply Z.pow_le_mono_r]; lia).
    pose proof (Z.mod_pos_bound address (2 ^ (w0 + w1 + w2)) ltac:(lia))
      as Hm.
    assert (Hr' : (- 2 ^ 63 <= address mod 2 ^ (w0 + w1 + w2) < 2 ^ 63)%Z).
    { destruct Ha as [Ha|Ha].
      - pose proof (Z.mod_le address (2 ^ (w0 + w1 + w2))
                      ltac:(lia) ltac:(lia)).
        lia.
      - assert (2 ^ (w0 + w1 + w2) <= 2 ^ 63)%Z
          by (apply Z.pow_le_mono_r; lia).
        lia. }
    rewrite decode_spatial by (repeat split; lia).
    now rewrite !field_low_bits by lia.
Qed.

Lemma decode_reads_low_bits_witness :
  exists centers,
    address_to_coordinate grid_filter [(2 ^ 40 + 19)%Z] = inr centers
    /\ address_to_coordinate grid_filter
         [((2 ^ 40 + 19) mod 2 ^ zsum (widths grid_filter))%Z]
       = inr centers.
Proof.
  apply (decode_reads_low_bits grid_points 1 grid_filter (2 ^ 40 + 19)%Z).
  - reflexivity.
  - lia.
  - left. lia.
Defined.

Lemma shifted_ones_testbit (s w i : Z) :
  (0 <= s)%Z -> (0 <= w)%Z -> (0 <= i)%Z ->
  Z.testbit (Z.shiftl (Z.ones w) s) i = (s <=? i)%Z && (i <? s + w)%Z.
Proof.
  intros Hs Hw Hi. rewrite Z.shiftl_spec by assumption.
  destruct (Z.leb_spec s i) as [Hle|Hlt].
  - rewrite Z.testbit_ones_nonneg by lia. cbn [andb].
    destruct (Z.ltb_spec (i - s) w), (Z.ltb_spec i (s + w)); lia || reflexivity.
  - apply Z.testbit_neg_r. lia.
Qed.

(** The bits of a mask as [_calculate_masks] leaves it: those of its field,
    and every higher bit once the field reaches bit 63. *)
Lemma wrapped_ones_testbit (s w i : Z) :
  (0 <= s)%Z -> (1 <= w)%Z -> (s + w <= 64)%Z -> (0 <= i)%Z ->
  Z.testbit (shl64 (Z.ones w) s) i
  = (s <=? i)%Z && ((i <? s + w)%Z || (64 <=? s + w)%Z).
Proof.
  intros Hs Hw Hsw Hi. rewrite wrapped_mask by assumption.
  destruct (Z.leb_spec (s + w) 63) as [Hle|Hgt].
  - rewrite shifted_ones_testbit by lia.
    destruct (Z.leb_spec 64 (s + w)); [lia|]. now rewrite orb_false_r.
  - rewrite Z.lnot_spec, Z.testbit_ones_nonneg by lia.
    destruct (Z.leb_spec 64 (s + w)); [|lia]. rewrite orb_true_r.
    destruct (Z.ltb_spec i s), (Z.leb_spec s i); lia || reflexivity.
Qed.

(** X14: the masks of a constructed filter are pairwise disjoint, and
    together they are the ones of the low bits up to the total width, as an
    [np.int64]: with widths that add up to 64 the last mask is negative and
    the masks together are [-1]. *)
Theorem masks_partition_low_bits (points : cloud) (edge : Q)
    (self : VoxelFilter) :
  init points edge = inr self ->
  (forall i j, (i < j < length (masks self))%nat ->
     Z.land (nth i (masks self) 0%Z) (nth j (masks self) 0%Z) = 0%Z)
  /\ fold_left Z.lor (masks self) 0%Z = int64 (Z.ones (zsum (widths self))).
Proof.
  intros Hinit.
  assert (Hall : forall W, int64 (Z.ones W) = shl64 (Z.ones W) 0)
    by reflexivity.
  destruct (init_shape _ _ _ Hinit)
    as [[Hd (m0 & m1 & M0 & M1 & w0 & w1 & -> & Hw0 & Hw1 & Hsum)]
       |[Hd (m0 & m1 & m2 & M0 & M1 & M2 & w0 & w1 & w2 & ->
             & Hw0 & Hw1 & Hw2 & Hsum)]];
    cbv [masks widths zsum]; cbn [length fold_left Z.add Z.lor];
    rewrite Hall; split.
  - intros [|[|i]] [|[|j]] Hij; try lia. cbn [nth].
    apply Z.bits_inj'. intros n Hn.
    rewrite Z.land_spec, Z.testbit_ones_nonneg, wrapped_ones_testbit,
      Z.bits_0 by lia.
    destruct (Z.ltb_spec n w0), (Z.leb_spec w0 n); lia || reflexivity.
  - apply Z.bits_inj'. intros n Hn.
    rewrite Z.lor_spec, Z.testbit_ones_nonneg, !wrapped_ones_testbit by lia.
    destruct (Z.ltb_spec n w0), (Z.leb_spec w0 n), (Z.leb_spec 0 n),
      (Z.ltb_spec n (w0 + w1)), (Z.ltb_spec n (0 + (w0 + w1))),
      (Z.leb_spec 64 (w0 + w1)), (Z.leb_spec 64 (0 + (w0 + w1)));
      lia || reflexivity.
  - intros [|[|[|i]]] [|[|[|j]]] Hij; try lia; cbn [nth];
      apply Z.bits_inj'; intros n Hn;
      rewrite Z.land_spec, ?Z.testbit_ones_nonneg, !wrapped_ones_testbit,
        Z.bits_0 by lia;
      destruct (Z.ltb_spec n w0), (Z.leb_spec w0 n),
        (Z.ltb_spec n (w0 + w1)), (Z.leb_spec (w0 + w1) n),
        (Z.leb_spec 64 (w0 + w1)), (Z.ltb_spec n (w0 + w1 + w2));
      lia || reflexivity.
  - apply Z.bits_inj'. intros n Hn.
    rewrite !Z.lor_spec, Z.testbit_ones_nonneg, !wrapped_ones_testbit by lia.
    destruct (Z.ltb_spec n w0), (Z.leb_spec w0 n), (Z.leb_spec 0 n),
      (Z.ltb_spec n (w0 + w1)), (Z.leb_spec (w0 + w1) n),
      (Z.leb_spec 64 (w0 + w1)),
      (Z.ltb_spec n (w0 + w1 + w2)), (Z.ltb_spec n (0 + (w0 + w1 + w2))),
      (Z.leb_spec 64 (w0 + w1 + w2)), (Z.leb_spec 64 (0 + (w0 + w1 + w2)));
      lia || reflexivity.
Qed.

Lemma masks_partition_low_bits_witness :
  (forall i j, (i < j < length (masks grid_filter))%nat ->
     Z.land (nth i (masks grid_filter) 0%Z) (nth j (masks grid_filter) 0%Z)
     = 0%Z)
  /\ fold_left Z.lor (masks grid_filter) 0%Z
     = int64 (Z.ones (zsum (widths grid_filter))).
Proof.
  apply (masks_partition_low_bits grid_points 1 grid_filter). reflexivity.
Defined.

(** The same on a filter whose widths add up to 64. *)
Lemma masks_of_full_width :
  init full_points 1 = inr full_filter
  /\ zsum (widths full_filter) = 64%Z
  /\ masks full_filter = [4294967295; -4294967296]%Z
  /\ fold_left Z.lor (masks full_filter) 0%Z = (-1)%Z.
Proof.
  repeat split; vm_compute; reflexivity.
Qed.

Lemma collect_ones (ws : list Z) :
  Forall (fun w => (1 <= w)%Z) ws ->
  collect (fun this_width => int_0b (ones_string this_width)) ws
  = inr (map Z.ones ws).
Proof.
  induction 1 as [|w ws Hw _ IH]; cbn [collect map]; [reflexivity|].
  rewrite int_0b_ones_string.
  apply Z.leb_le in Hw. rewrite Hw. cbn [bind]. rewrite IH. reflexivity.
Qed.

Lemma collect_ones_inv (ws ms : list Z) :
  collect (fun this_width => int_0b (ones_string this_width)) ws = inr ms ->
  Forall (fun w => (1 <= w)%Z) ws.
Proof.
  revert ms. induction ws as [|w ws IH]; intros ms H; [constructor|].
  cbn [collect] in H. rewrite int_0b_ones_string in H.
  destruct (Z.leb_spec 1 w) as [Hw|]; [|discriminate H].
  cbn [bind] in H.
  destruct (collect _ ws) as [|ms'] eqn:E; [discriminate H|].
  constructor; [exact Hw | now apply (IH ms')].
Qed.

(** X15: a [VoxelFilter] is constructed exactly when the cloud has two or
    three columns and at least two rows, the bit widths of its axes add up
    to at most 64, and every width is at least 1. *)
Theorem filter_constructed_iff (points : cloud) (edge : Q) :
  (exists self, init points edge = inr self)
  <-> ((shape1 points = 2 \/ shape1 points = 3)%nat
       /\ (2 <= shape0 points)%nat
       /\ exists lowest highest,
            min0 points = inr lowest /\ max0 points = inr highest
            /\ (zsum (address_widths (sub_scalar lowest (edge / 2))
                                     (add_scalar highest (edge / 2)) edge)
                <= MAX_ADDRESS_LENGTH)%Z
            /\ Forall (fun w => (1 <= w)%Z)
                      (address_widths (sub_scalar lowest (edge / 2))
                                      (add_scalar highest (edge / 2)) edge)).
Proof.
  unfold init. split.
  - intros [self H].
    destruct ((shape1 points =? 2)%nat || (shape1 points =? 3)%nat) eqn:Hd;
      [|discriminate H].
    apply orb_true_iff in Hd. rewrite !Nat.eqb_eq in Hd.
    destruct (Nat.ltb_spec (shape0 points) 2) as [|Hn]; [discriminate H|].
    cbn [negb] in H.
    destruct (min0 points) as [|lowest]; [discriminate H|].
    destruct (max0 points) as [|highest]; [discriminate H|].
    cbn [bind] in H. unfold calculate_shift in H.
    destruct (Z.ltb_spec MAX_ADDRESS_LENGTH
                (zsum (address_widths (sub_scalar lowest (edge / 2))
                         (add_scalar highest (edge / 2)) edge)))
      as [|Hsum]; [discriminate H|].
    cbn [bind ret fst snd] in H. unfold calculate_masks in H.
    destruct (collect _ _) as [|ms] eqn:E; [discriminate H|].
    apply collect_ones_inv in E.
    repeat split; try assumption. exists lowest, highest. auto.
  - intros (Hd & Hn & lowest & highest & Hlo & Hhi & Hsum & Hpos).
    replace ((shape1 points =? 2)%nat || (shape1 points =? 3)%nat) with true
      by (symmetry; apply orb_true_iff; rewrite !Nat.eqb_eq; exact Hd).
    apply Nat.ltb_ge in Hn. rewrite Hn, Hlo, Hhi.
    cbn [negb bind]. unfold calculate_shift.
    apply Z.ltb_ge in Hsum. rewrite Hsum.
    cbn [bind ret fst snd]. unfold calculate_masks.
    rewrite (collect_ones _ Hpos). cbn [bind ret].
    eexists. reflexivity.
Qed.

Lemma filter_constructed_iff_witness :
  exists self, init grid_points 1 = inr self.
Proof.
  apply (proj2 (filter_constructed_iff grid_points 1)).
  split; [left; reflexivity|]. split; [vm_compute; lia|].
  exists [0; 0]%Q, [3; 4]%Q.
  repeat split; try reflexivity.
  - vm_compute. discriminate.
  - repeat constructor; vm_compute; discriminate.
Defined.

(** *** The bounds check *)

Lemma any_lt_false_iff (a : point) :
  forall b, length a = length b ->
    (any_lt a b = false
     <-> forall k, (k < length a)%nat -> (nth k b 0 <= nth k a 0)%Q).
Proof.
  unfold any_lt.
  induction a as [|x a IH]; intros [|y b] Hlen; try discriminate Hlen;
    cbn [combine existsb fst snd length].
  - split; [intros _ k Hk; lia | reflexivity].
  - rewrite orb_false_iff, Qltb_false_iff, (IH b) by (simpl in Hlen; lia).
    split.
    + intros [H0 H] [|k] Hk; [exact H0 | apply H; lia].
    + intros H. split; [apply (H 0%nat); lia|].
      intros k Hk. apply (H (S k)). lia.
Qed.

Lemma fold_qmin_in (xs : list Q) :
  forall x, In (fold_left qmin xs x) (x :: xs).
Proof.
  induction xs as [|a xs IH]; intros x; cbn [fold_left]; [now left|].
  destruct (IH (qmin x a)) as [H|H]; [|right; now right].
  rewrite <- H. unfold qmin. destruct (Qle_bool x a); [now left|right; now left].
Qed.

Lemma fold_qmax_in (xs : list Q) :
  forall x, In (fold_left qmax xs x) (x :: xs).
Proof.
  induction xs as [|a xs IH]; intros x; cbn [fold_left]; [now left|].
  destruct (IH (qmax x a)) as [H|H]; [|right; now right].
  rewrite <- H. unfold qmax. destruct (Qle_bool x a); [right; now left|now left].
Qed.

Lemma column_attained (pts : cloud) (k : nat) (v : Q) :
  In v (column pts k) ->
  exists i, (i < shape0 pts)%nat /\ v = nth k (nth i (rows pts) []) 0%Q.
Proof.
  unfold column, shape0. intros H. apply in_map_iff in H.
  destruct H as (r & <- & Hr). apply (In_nth _ _ []) in Hr.
  destruct Hr as (i & Hi & <-). now exists i.
Qed.

Lemma column_nonempty (pts : cloud) (k : nat) :
  (0 < shape0 pts)%nat -> column pts k <> [].
Proof.
  unfold column, shape0. destruct (rows pts); simpl; [lia | discriminate].
Qed.

(** The smallest coordinates are at least [low] exactly when every point
    is. *)
Lemma lowest_above_iff (pts : cloud) (lowest low : point) :
  min0 pts = inr lowest -> length low = shape1 pts ->
  (any_lt lowest low = false
   <-> forall i k, (i < shape0 pts)%nat -> (k < shape1 pts)%nat ->
         (nth k low 0 <= nth k (nth i (rows pts) []) 0)%Q).
Proof.
  intros Hmin Hlen.
  pose proof (OctreeFacts.min0_length _ _ Hmin) as Ll.
  assert (Hn : (0 < shape0 pts)%nat).
  { unfold min0 in Hmin. unfold shape0.
    destruct (rows pts); [discriminate Hmin | simpl; lia]. }
  rewrite any_lt_false_iff by congruence. rewrite Ll. split.
  - intros H i k Hi Hk. eapply Qle_trans; [apply (H k Hk)|].
    rewrite (RegionsFacts.min0_nth _ _ k Hmin Hk).
    apply reduce_qmin_le, RegionsFacts.column_in, Hi.
  - intros H k Hk. rewrite (RegionsFacts.min0_nth _ _ k Hmin Hk).
    pose proof (column_nonempty pts k Hn) as Hne.
    destruct (column pts k) as [|x xs] eqn:E; [contradiction|].
    pose proof (fold_qmin_in xs x) as Hin. rewrite <- E in Hin.
    apply column_attained in Hin. destruct Hin as (i & Hi & Hv).
    cbn [reduce]. rewrite Hv. now apply H.
Qed.

Lemma highest_below_iff (pts : cloud) (highest high : point) :
  max0 pts = inr highest -> length high = shape1 pts ->
  (any_lt high highest = false
   <-> forall i k, (i < shape0 pts)%nat -> (k < shape1 pts)%nat ->
         (nth k (nth i (rows pts) []) 0 <= nth k high 0)%Q).
Proof.
  intros Hmax Hlen.
  pose proof (OctreeFacts.max0_length _ _ Hmax) as Ll.
  assert (Hn : (0 < shape0 pts)%nat).
  { unfold max0 in Hmax. unfold shape0.
    destruct (rows pts); [discriminate Hmax | simpl; lia]. }
  rewrite any_lt_false_iff by congruence. rewrite Hlen. split.
  - intros H i k Hi Hk. eapply Qle_trans; [|apply (H k Hk)].
    rewrite (RegionsFacts.max0_nth _ _ k Hmax Hk).
    apply reduce_qmax_ge, RegionsFacts.column_in, Hi.
  - intros H k Hk. rewrite (RegionsFacts.max0_nth _ _ k Hmax Hk).
    pose proof (column_nonempty pts k Hn) as Hne.
    destruct (column pts k) as [|x xs] eqn:E; [contradiction|].
    pose proof (fold_qmax_in xs x) as Hin. rewrite <- E in Hin.
    apply column_attained in Hin. destruct Hin as (i & Hi & Hv).
    cbn [reduce]. rewrite Hv. now apply H.
Qed.

Lemma check_in_bounds_inside (self : VoxelFilter) (pts : cloud) :
  shape1 pts = (length (shifts self) + 1)%nat ->
  length (minimum_corner self) = shape1 pts ->
  length (maximum_corner self) = shape1 pts ->
  (0 < shape0 pts)%nat ->
  (all_inside self pts -> check_in_bounds self pts = inr pts)
  /\ (forall checked, check_in_bounds self pts = inr checked ->
        all_inside self pts).
Proof.
  intros Hd Lm LM Hn. unfold check_in_bounds.
  rewrite <- Hd, Nat.eqb_refl. cbn [negb].
  destruct (min0 pts) as [|lowest] eqn:Hmin.
  { unfold min0, shape0 in *. destruct (rows pts); [simpl in Hn; lia|].
    discriminate Hmin. }
  destruct (max0 pts) as [|highest] eqn:Hmax.
  { unfold max0, shape0 in *. destruct (rows pts); [simpl in Hn; lia|].
    discriminate Hmax. }
  cbn [bind].
  pose proof (lowest_above_iff pts lowest _ Hmin Lm) as Hlow.
  pose proof (highest_below_iff pts highest _ Hmax LM) as Hhigh.
  split.
  - intros Hin.
    assert (E1 : any_lt lowest (minimum_corner self) = false)
      by (apply Hlow; intros i k Hi Hk; apply (Hin i k Hi Hk)).
    assert (E2 : any_lt (maximum_corner self) highest = false)
      by (apply Hhigh; intros i k Hi Hk; apply (Hin i k Hi Hk)).
    now rewrite E1, E2.
  - intros checked H.
    destruct (any_lt lowest (minimum_corner self)) eqn:E1; [discriminate H|].
    destruct (any_lt (maximum_corner self) highest) eqn:E2; [discriminate H|].
    intros i k Hi Hk. split; [now apply Hlow | now apply Hhigh].
Qed.

(** X17: on a non-empty array of the filter's dimensionality, encoding
    returns addresses exactly when every point lies between the minimum and
    the maximum corner on every axis, both corners included; it then returns
    one address for each point. *)
Theorem encode_succeeds_iff (points : cloud) (edge : Q) (self : VoxelFilter)
    (pts : cloud) :
  init points edge = inr self ->
  shape1 pts = shape1 points ->
  (0 < shape0 pts)%nat ->
  ((exists addresses, coordinate_to_address self pts = inr addresses)
   <-> all_inside self pts)
  /\ (forall addresses,
        coordinate_to_address self pts = inr addresses ->
        length addresses = shape0 pts).
Proof.
  intros Hinit Hd Hn.
  destruct (init_dimensions _ _ _ Hinit) as (_ & Lm & LM & _ & _ & Ls & _).
  destruct (check_in_bounds_inside self pts) as [Hyes Hno]; try congruence.
  unfold coordinate_to_address. split; [split|].
  - intros [addresses H].
    destruct (check_in_bounds self pts) as [|checked] eqn:E; [discriminate H|].
    now apply (Hno checked).
  - intros Hin. rewrite (Hyes Hin). cbn [bind]. eexists. reflexivity.
  - intros addresses H.
    destruct (check_in_bounds self pts) as [|checked]; [discriminate H|].
    pose proof (Hyes (Hno checked eq_refl)) as Hc. injection Hc as ->.
    cbn [bind] in H. injection H as <-. now rewrite length_map.
Qed.

Lemma encode_succeeds_iff_witness :
  ((exists addresses,
       coordinate_to_address grid_filter (cloud_of 2 [[0; 0]; [3; 4]]%Q)
       = inr addresses)
   <-> all_inside grid_filter (cloud_of 2 [[0; 0]; [3; 4]]%Q))
  /\ (forall addresses,
        coordinate_to_address grid_filter (cloud_of 2 [[0; 0]; [3; 4]]%Q)
        = inr addresses ->
        length addresses = shape0 (cloud_of 2 [[0; 0]; [3; 4]]%Q)).
Proof.
  apply (encode_succeeds_iff grid_points 1 grid_filter
           (cloud_of 2 [[0; 0]; [3; 4]]%Q)).
  - reflexivity.
  - reflexivity.
  - vm_compute. lia.
Defined.

(** X18: the points of an array are encoded one by one: when encoding the
    array succeeds, encoding any single row of it succeeds as well, with the
    address found at that row's position. *)
Theorem encode_pointwise (points : cloud) (edge : Q) (self : VoxelFilter)
    (pts : cloud) (addresses : list Z) (i : nat) :
  init points edge = inr self ->
  shape1 pts = shape1 points ->
  coordinate_to_address self pts = inr addresses ->
  (i < shape0 pts)%nat ->
  coordinate_to_address self (mkCloud (shape1 pts) [nth i (rows pts) []])
  = inr [nth i addresses 0%Z].
Proof.
  intros Hinit Hd Henc Hi.
  destruct (init_dimensions _ _ _ Hinit) as (_ & Lm & LM & _ & _ & Ls & _).
  destruct (check_in_bounds_inside self pts) as [Hyes Hno];
    try congruence; try lia.
  unfold coordinate_to_address in *.
  destruct (check_in_bounds self pts) as [|checked]; [discriminate Henc|].
  pose proof (Hno checked eq_refl) as Hin.
  pose proof (Hyes Hin) as Hc. injection Hc as ->.
  cbn [bind] in Henc. injection Henc as <-.
  destruct (check_in_bounds_inside self
              (mkCloud (shape1 pts) [nth i (rows pts) []])) as [Hone _];
    cbn [shape1 shape0 rows length]; try congruence; try lia.
  rewrite Hone.
  - cbn [bind rows map]. unfold ret.
    do 2 f_equal. symmetry.
    exact (nth_map_in
             (fun p => sum64 (on_tail shl64 (voxel_coordinates self p)
                                      (shifts self)))
             (rows pts) i [] 0%Z Hi).
  - intros j k Hj Hk. cbn [shape0 shape1 rows length] in *.
    assert (j = 0%nat) as -> by lia. cbn [nth]. now apply Hin.
Qed.

Lemma encode_pointwise_witness :
  coordinate_to_address grid_filter (mkCloud 2 [[3; 4]]%Q) = inr [19%Z].
Proof.
  apply (encode_pointwise grid_points 1 grid_filter
           (cloud_of 2 [[0; 0]; [3; 4]]%Q) [0; 19]%Z 1%nat).
  - reflexivity.
  - reflexivity.
  - reflexivity.
  - vm_compute. lia.
Defined.

(** *** Occupied cells *)

Lemma unique_insert_in (x : Z) (l : list Z) (a : Z) :
  In a (unique_insert x l) <-> a = x \/ In a l.
Proof.
  induction l as [|y l IH]; cbn [unique_insert].
  - simpl. intuition.
  - destruct (Z.ltb_spec x y) as [Hlt|Hge]; [simpl; intuition|].
    destruct (Z.eqb_spec x y) as [->|Hne]; simpl; [intuition|].
    rewrite IH. intuition.
Qed.

Lemma unique_insert_sorted (x : Z) (l : list Z) :
  StronglySorted Z.lt l -> StronglySorted Z.lt (unique_insert x l).
Proof.
  induction 1 as [|y l Hs IH Hall]; cbn [unique_insert].
  - repeat constructor.
  - destruct (Z.ltb_spec x y) as [Hlt|Hge].
    + constructor; [now constructor|].
      constructor; [exact Hlt|].
      eapply Forall_impl; [|exact Hall]. intros z Hz. simpl in Hz. lia.
    + destruct (Z.eqb_spec x y) as [->|Hne]; [now constructor|].
      constructor; [exact IH|].
      apply Forall_forall. intros z Hz. apply unique_insert_in in Hz.
      destruct Hz as [->|Hz]; [lia|].
      rewrite Forall_forall in Hall. now apply Hall.
Qed.

Lemma unique_insert_length (x : Z) (l : list Z) :
  (length (unique_insert x l) <= S (length l))%nat.
Proof.
  induction l as [|y l IH]; cbn [unique_insert]; [simpl; lia|].
  destruct (x <? y)%Z; [simpl; lia|].
  destruct (x =? y)%Z; simpl; lia.
Qed.

Lemma np_unique_sorted (l : list Z) : StronglySorted Z.lt (np_unique l).
Proof.
  induction l as [|x l IH]; cbn [np_unique fold_right]; [constructor|].
  now apply unique_insert_sorted.
Qed.

Lemma np_unique_in (l : list Z) (a : Z) : In a (np_unique l) <-> In a l.
Proof.
  induction l as [|x l IH]; cbn [np_unique fold_right]; [reflexivity|].
  fold (np_unique l). rewrite unique_insert_in, IH. simpl. intuition.
Qed.

Lemma np_unique_length (l : list Z) : (length (np_unique l) <= length l)%nat.
Proof.
  induction l as [|x l IH]; cbn [np_unique fold_right]; [simpl; lia|].
  fold (np_unique l). pose proof (unique_insert_length x (np_unique l)).
  simpl. lia.
Qed.

Lemma decoded_rows (self : VoxelFilter) (addresses : list Z)
    (centers : cloud) :
  address_to_coordinate self addresses = inr centers ->
  length (rows centers) = length addresses.
Proof.
  unfold address_to_coordinate.
  destruct (negb (int64_array addresses) && fits_64_bits addresses);
    [discriminate|].
  unfold ret. intros [= <-]. cbn [rows]. apply length_map.
Qed.

(** Every address that [coordinate_to_address] returns is an [np.int64], and
    so is what [np.unique] keeps of them. *)
Lemma encoded_int64_array (self : VoxelFilter) (pts : cloud)
    (addresses : list Z) :
  coordinate_to_address self pts = inr addresses ->
  int64_array (np_unique addresses) = true.
Proof.
  unfold coordinate_to_address.
  destruct (check_in_bounds self pts) as [|checked]; [discriminate|].
  cbn [bind]. unfold ret. intros [= <-].
  apply forallb_forall. intros a Ha. apply (proj1 (np_unique_in _ _)) in Ha.
  apply in_map_iff in Ha. destruct Ha as (p & <- & _).
  assert (Hr : forall l, (- 2 ^ 63 <= sum64 l < 2 ^ 63)%Z).
  { intros [|x l]; [vm_compute; split; [discriminate|reflexivity]|].
    apply sum64_range. discriminate. }
  destruct (Hr (on_tail shl64 (voxel_coordinates self p) (shifts self)))
    as [H1 H2].
  apply Z.leb_le in H1. apply Z.ltb_lt in H2. now rewrite H1, H2.
Qed.

(** [unique_voxels] returns whenever the points are encoded: decoding never
    refuses the addresses that encoding made. *)
Lemma unique_voxels_returns (self : VoxelFilter) (pts : cloud)
    (addresses : list Z) :
  coordinate_to_address self pts = inr addresses ->
  exists centers, unique_voxels self pts = inr centers.
Proof.
  intros H. unfold unique_voxels. rewrite H. cbn [bind].
  unfold address_to_coordinate.
  rewrite (encoded_int64_array _ _ _ H). cbn [negb andb].
  eexists. reflexivity.
Qed.

(** X19: when [unique_voxels] returns, its rows are the decoded addresses of
    the points, taken in increasing order of address and each address once;
    there are never more centres than points. *)
Theorem unique_voxels_cells (self : VoxelFilter) (pts centers : cloud) :
  unique_voxels self pts = inr centers ->
  exists addresses unique_addresses,
    coordinate_to_address self pts = inr addresses
    /\ StronglySorted Z.lt unique_addresses
    /\ (forall a, In a unique_addresses <-> In a addresses)
    /\ address_to_coordinate self unique_addresses = inr centers
    /\ shape0 centers = length unique_addresses
    /\ (shape0 centers <= length addresses)%nat.
Proof.
  unfold unique_voxels. intros H.
  destruct (coordinate_to_address self pts) as [|addresses]; [discriminate H|].
  cbn [bind] in H.
  exists addresses, (np_unique addresses).
  split; [reflexivity|]. split; [apply np_unique_sorted|].
  split; [apply np_unique_in|]. split; [exact H|].
  unfold shape0. rewrite (decoded_rows _ _ _ H).
  split; [reflexivity | apply np_unique_length].
Qed.

Lemma unique_voxels_cells_witness :
  exists addresses unique_addresses,
    coordinate_to_address grid_filter
      (cloud_of 2 [[3; 4]; [0; 0]; [3 # 1; 17 # 4]; [1 # 4; 0]]%Q)
    = inr addresses
    /\ StronglySorted Z.lt unique_addresses
    /\ (forall a, In a unique_addresses <-> In a addresses)
    /\ address_to_coordinate grid_filter unique_addresses
       = inr (mkCloud 2 [[0 # 4; 0 # 4]; [12 # 4; 16 # 4]]%Q)
    /\ shape0 (mkCloud 2 [[0 # 4; 0 # 4]; [12 # 4; 16 # 4]]%Q)
       = length unique_addresses
    /\ (shape0 (mkCloud 2 [[0 # 4; 0 # 4]; [12 # 4; 16 # 4]]%Q)
        <= length addresses)%nat.
Proof.
  apply (unique_voxels_cells grid_filter
           (cloud_of 2 [[3; 4]; [0; 0]; [3 # 1; 17 # 4]; [1 # 4; 0]]%Q)).
  reflexivity.
Defined.

(** X20: a filter built with a positive edge length accepts the cloud it
    was built from: every point of the cloud is inside the bounding region,
    and encoding the cloud returns one address for each point. *)
Theorem construction_cloud_encoded (points : cloud) (edge : Q)
    (self : VoxelFilter) :
  init points edge = inr self ->
  (0 < edge)%Q ->
  all_inside self points
  /\ exists addresses,
       coordinate_to_address self points = inr addresses
       /\ length addresses = shape0 points.
Proof.
  intros Hinit He.
  destruct (init_corners _ _ _ Hinit)
    as (lowest & highest & Hmin & Hmax & Hm & HM & _).
  destruct (init_dimensions _ _ _ Hinit) as (_ & Lm & LM & _ & _ & Ls & _).
  pose proof (OctreeFacts.min0_length _ _ Hmin) as Ll.
  pose proof (OctreeFacts.max0_length _ _ Hmax) as Lh.
  assert (Hhalf : (edge / 2 == edge * (1 # 2))%Q) by field.
  assert (Hn : (0 < shape0 points)%nat).
  { unfold min0 in Hmin. unfold shape0.
    destruct (rows points); [discriminate Hmin | simpl; lia]. }
  assert (Hin : all_inside self points).
  { intros i k Hi Hk. rewrite Hm, HM.
    rewrite RegionFilter.sub_scalar_nth, RegionFilter.add_scalar_nth by lia.
    rewrite (RegionsFacts.min0_nth _ _ k Hmin Hk).
    rewrite (RegionsFacts.max0_nth _ _ k Hmax Hk).
    pose proof (reduce_qmin_le _ _ (RegionsFacts.column_in points k i Hi)).
    pose proof (reduce_qmax_ge _ _ (RegionsFacts.column_in points k i Hi)).
    split; lra. }
  split; [exact Hin|].
  destruct (check_in_bounds_inside self points) as [Hyes _];
    try congruence.
  unfold coordinate_to_address. rewrite (Hyes Hin). cbn [bind].
  eexists. split; [reflexivity|]. now rewrite length_map.
Qed.

Lemma construction_cloud_encoded_witness :
  all_inside grid_filter grid_points
  /\ exists addresses,
       coordinate_to_address grid_filter grid_points = inr addresses
       /\ length addresses = shape0 grid_points.
Proof.
  apply (construction_cloud_encoded grid_points 1 grid_filter); reflexivity.
Defined.

End VoxelMore.
